(** * Fleetalytics: the JSON preview script

    A shallow embedding of [scripts/json_preview_script.py] and of the
    parts of the Python runtime it calls ([str] methods, the UTF-8
    codec with [errors='ignore'], text-mode file reads, the one regular
    expression of the script, [json.loads]), followed by the properties
    of the script that the design document states. *)

From Stdlib Require Import String Ascii Strings.Byte NArith ZArith Bool Lia Arith List.
From Stdlib Require Import DecimalString.
Import ListNotations.

Set Implicit Arguments.
Set Warnings "-register-all".

(** ** Python strings

    A Python [str] is a sequence of Unicode code points. *)

Module PyStr.

Definition char := N.
Definition pystr := list char.

(** An ASCII literal as a [str]. *)
Definition lit (s : string) : pystr :=
  map N_of_ascii (list_ascii_of_string s).

Definition apostrophe : char := 0x27%N.
Definition dquote : char := 0x22%N.

(** A literal in which every apostrophe stands for a double quote, so
    that JSON text can be written down legibly:
    [dq "{'a': 1}"] is the text [{"a": 1}]. *)
Definition dq (s : string) : pystr :=
  map (fun c => if N.eqb c apostrophe then dquote else c) (lit s).

Definition char_eqb : char -> char -> bool := N.eqb.

Fixpoint str_eqb (a b : pystr) : bool :=
  match a, b with
  | [], [] => true
  | x :: a', y :: b' => char_eqb x y && str_eqb a' b'
  | _, _ => false
  end.

(** [key in unique_keys] on a list of strings. *)
Definition str_in (key : pystr) (l : list pystr) : bool :=
  existsb (str_eqb key) l.

(** [Py_UNICODE_ISSPACE]: the characters that [str.strip()] removes and
    that [\s] matches in a [str] pattern. *)
Definition isspace (c : char) : bool :=
  (((0x09 <=? c) && (c <=? 0x0D)) || ((0x1C <=? c) && (c <=? 0x20))
   || (c =? 0x85) || (c =? 0xA0) || (c =? 0x1680)
   || ((0x2000 <=? c) && (c <=? 0x200A))
   || (c =? 0x2028) || (c =? 0x2029) || (c =? 0x202F) || (c =? 0x205F)
   || (c =? 0x3000))%N.

Fixpoint lstrip (s : pystr) : pystr :=
  match s with
  | c :: rest => if isspace c then lstrip rest else s
  | [] => []
  end.

Definition rstrip (s : pystr) : pystr := rev (lstrip (rev s)).

(** [s.strip()] *)
Definition strip (s : pystr) : pystr := rstrip (lstrip s).

(** [s.startswith(prefix)] *)
Fixpoint startswith (prefix s : pystr) : bool :=
  match prefix, s with
  | [], _ => true
  | p :: prefix', c :: s' => char_eqb p c && startswith prefix' s'
  | _ :: _, [] => false
  end.

(** [s.replace(old, new)] for a non-empty [old]: the occurrences of
    [old] are found from left to right and do not overlap.  [skip]
    counts the characters of an occurrence just replaced that are still
    to be passed over. *)
Fixpoint replace_from (old new : pystr) (skip : nat) (s : pystr) : pystr :=
  match s with
  | [] => []
  | c :: rest =>
      match skip with
      | S k => replace_from old new k rest
      | O =>
          if startswith old s
          then new ++ replace_from old new (length old - 1) rest
          else c :: replace_from old new 0 rest
      end
  end.

Definition replace (old new s : pystr) : pystr := replace_from old new 0 s.

(** [s[:n]] *)
Definition slice_to {A} (n : Z) (s : list A) : list A :=
  if (n <? 0)%Z
  then firstn (length s - Z.to_nat (- n)) s
  else firstn (Z.to_nat n) s.

(** [sep.join(l)] *)
Fixpoint join (sep : pystr) (l : list pystr) : pystr :=
  match l with
  | [] => []
  | [x] => x
  | x :: l' => x ++ sep ++ join sep l'
  end.

(** [len(s)] *)
Definition len {A} (s : list A) : Z := Z.of_nat (length s).

End PyStr.
Import PyStr.

(** ** The UTF-8 codec

    [bytes.decode('utf-8', errors='ignore')], as CPython decodes: an
    ill-formed sequence is dropped up to the byte at which it stops
    being the prefix of a well-formed one, decoding goes on at that
    byte, and nothing is put in the text for what was dropped. *)

Module Utf8.

Local Open Scope N_scope.

Definition is_continuation (b : N) : bool := (0x80 <=? b) && (b <=? 0xBF).

Fixpoint decode_ignore (bs : list byte) : pystr :=
  match bs with
  | [] => []
  | b0 :: r1 =>
    let c0 := Byte.to_N b0 in
    if c0 <? 0x80 then c0 :: decode_ignore r1
    else if c0 <? 0xC2 then decode_ignore r1 (* invalid start byte *)
    else if c0 <? 0xE0 then
      match r1 with
      | [] => [] (* unexpected end of data *)
      | b1 :: r2 =>
        let c1 := Byte.to_N b1 in
        if is_continuation c1
        then ((c0 - 0xC0) * 64 + (c1 - 0x80)) :: decode_ignore r2
        else decode_ignore r1
      end
    else if c0 <? 0xF0 then
      match r1 with
      | [] => []
      | b1 :: r2 =>
        let c1 := Byte.to_N b1 in
        if negb (is_continuation c1)
           || (if c1 <? 0xA0 then c0 =? 0xE0 else c0 =? 0xED)
        then decode_ignore r1
        else
          match r2 with
          | [] => []
          | b2 :: r3 =>
            let c2 := Byte.to_N b2 in
            if is_continuation c2
            then ((c0 - 0xE0) * 4096 + (c1 - 0x80) * 64 + (c2 - 0x80))
                   :: decode_ignore r3
            else decode_ignore r2
          end
      end
    else if c0 <? 0xF5 then
      match r1 with
      | [] => []
      | b1 :: r2 =>
        let c1 := Byte.to_N b1 in
        if negb (is_continuation c1)
           || (if c1 <? 0x90 then c0 =? 0xF0 else c0 =? 0xF4)
        then decode_ignore r1
        else
          match r2 with
          | [] => []
          | b2 :: r3 =>
            let c2 := Byte.to_N b2 in
            if negb (is_continuation c2) then decode_ignore r2
            else
              match r3 with
              | [] => []
              | b3 :: r4 =>
                let c3 := Byte.to_N b3 in
                if is_continuation c3
                then ((c0 - 0xF0) * 262144 + (c1 - 0x80) * 4096
                      + (c2 - 0x80) * 64 + (c3 - 0x80)) :: decode_ignore r4
                else decode_ignore r3
              end
          end
      end
    else decode_ignore r1 (* invalid start byte *)
  end.


Definition byte_of_N (n : N) : byte :=
  match Byte.of_N n with
  | Some b => b
  | None => x00
  end.

(** The characters that UTF-8 encodes: the code points outside the
    surrogate range. *)
Definition scalar_value (c : char) : bool :=
  (c <? 0xD800) || ((0xE000 <=? c) && (c <? 0x110000)).

(** [str.encode('utf-8')] of one character. *)
Definition encode_char (c : char) : list byte :=
  if c <? 0x80 then [byte_of_N c]
  else if c <? 0x800 then
    [byte_of_N (0xC0 + c / 64); byte_of_N (0x80 + c mod 64)]
  else if c <? 0x10000 then
    [byte_of_N (0xE0 + c / 4096); byte_of_N (0x80 + (c / 64) mod 64);
     byte_of_N (0x80 + c mod 64)]
  else
    [byte_of_N (0xF0 + c / 262144); byte_of_N (0x80 + (c / 4096) mod 64);
     byte_of_N (0x80 + (c / 64) mod 64); byte_of_N (0x80 + c mod 64)].

Definition encode (s : pystr) : list byte := flat_map encode_char s.

End Utf8.

(** ** Files and exceptions

    The script reads files and catches what the reads raise.  The
    outside world is a state: what each path holds, the system calls
    that are going to fail, and the system calls made so far.  The
    paths are those that reach the operating system ([fs_path] below):
    a path with a NUL character, or with a surrogate that the encoding
    of the file system refuses, makes [open] and [os.stat] raise a
    [ValueError] before any system call, which is not a case of these
    worlds. *)

Module IO.

Inductive exn_class :=
| OSError | JSONDecodeError | RecursionError | ValueError | AttributeError
| OverflowError.

(** A raised exception; [str(e)] is its message.  The messages of the
    errors of [json.loads] are indicative: Python appends the position
    to them, and the script never shows one, since the only exception
    whose message it prints is the one of its first attempt, which
    does not parse. *)
Record exn := Exn { exn_class_of : exn_class; str_exn : pystr }.

Inductive syscall :=
| Stat (path : pystr)
| Open (path : pystr) (binary : bool)
| Read (size : Z)
| Close.

Record World := {
  (** What is at each path: the contents of a regular file, or the
      message of the [OSError] that [stat] and [open] raise there (no
      such file, a directory, no permission). *)
  files : pystr -> pystr + list byte;
  (** One entry for each system call to come: [Some msg] makes that
      call fail with [OSError msg]; once the list is used up no call
      fails this way. *)
  faults : list (option pystr);
  (** The system calls made so far, the oldest first. *)
  trace : list syscall;
  (** The depth of nesting that [json.loads] can go to before the
      interpreter raises [RecursionError]. *)
  recursion_limit : nat;
  (** [sys.get_int_max_str_digits()]: the longest run of digits that is
      converted to an [int]; [0] for no limit. *)
  int_max_str_digits : nat
}.

(** A computation that makes system calls and returns a value or
    raises. *)
Definition IO (A : Type) : Type := World -> (exn + A) * World.

Definition ret {A} (x : A) : IO A := fun w => (inr x, w).

Definition raise {A} (cls : exn_class) (msg : pystr) : IO A :=
  fun w => (inl (Exn cls msg), w).

Definition bind {A B} (m : IO A) (k : A -> IO B) : IO B :=
  fun w =>
    match m w with
    | (inr x, w') => k x w'
    | (inl e, w') => (inl e, w')
    end.

(** [try: m  except Exception as e: handler e] *)
Definition try_except {A} (m : IO A) (handler : exn -> IO A) : IO A :=
  fun w =>
    match m w with
    | (inr x, w') => (inr x, w')
    | (inl e, w') => handler e w'
    end.

(** The result of a pure call that may raise. *)
Definition lift {A} (r : exn + A) : IO A := fun w => (r, w).

Definition ask {A} (f : World -> A) : IO A := fun w => (inr (f w), w).

(** The world after the system calls [made]. *)
Definition record (made : list syscall) (w : World) : World :=
  {| files := files w;
     faults := skipn (length made) (faults w);
     trace := trace w ++ made;
     recursion_limit := recursion_limit w;
     int_max_str_digits := int_max_str_digits w |}.

(** One system call: it is recorded, and it fails if the world says so. *)
Definition sys (call : syscall) : IO unit :=
  fun w =>
    match faults w with
    | Some msg :: _ => (inl (Exn OSError msg), record [call] w)
    | _ => (inr tt, record [call] w)
    end.

(** The next [n] system calls do not fail. *)
Definition quiet (n : nat) (faults : list (option pystr)) : Prop :=
  Forall (fun fault => fault = None) (firstn n faults).

End IO.
Import IO.

Declare Scope io_scope.
Delimit Scope io_scope with io.
Notation "x <- m ;; k" := (bind m (fun x => k))
  (at level 61, m at next level, right associativity) : io_scope.
Notation "m ;;; k" := (bind m (fun _ => k))
  (at level 61, right associativity) : io_scope.
Notation "'try' m 'except' e => h" := (try_except m (fun e => h))
  (at level 62, m at level 61, e name, h at level 62) : io_scope.
Open Scope io_scope.

Module File.

(** [os.path.getsize(path)] *)
Definition getsize (path : pystr) : IO Z :=
  sys (Stat path) ;;;
  contents <- ask (fun w => files w path) ;;
  match contents with
  | inl msg => raise OSError msg
  | inr bytes => ret (len bytes)
  end.

(** An open file.  The script reads each file it opens once, from the
    start, so a file object is the bytes there are to read. *)
Record file := { data : list byte }.

(** [open(path, 'r', encoding='utf-8', errors='ignore')] and
    [open(path, 'rb')] *)
Definition open (path : pystr) (binary : bool) : IO file :=
  sys (Open path binary) ;;;
  contents <- ask (fun w => files w path) ;;
  match contents with
  | inl msg => raise OSError msg
  | inr bytes => ret {| data := bytes |}
  end.

(** What a text file gives with the default [newline=None]: [\r\n] and
    a lone [\r] are read as [\n]. *)
Fixpoint universal_newlines (s : pystr) : pystr :=
  match s with
  | [] => []
  | c :: rest =>
      if char_eqb c 0x0D%N then
        0x0A%N ::
        match rest with
        | c' :: rest' =>
            if char_eqb c' 0x0A%N then universal_newlines rest'
            else universal_newlines rest
        | [] => []
        end
      else c :: universal_newlines rest
  end.

(** The text of a file opened with [errors='ignore']. *)
Definition text_of (bytes : list byte) : pystr :=
  universal_newlines (Utf8.decode_ignore bytes).

(** What [read(size)] gives of what there is to read: at most [size]
    items, all of them for a negative [size]. *)
Definition upto {A} (size : Z) (l : list A) : list A :=
  if (size <? 0)%Z then l else firstn (Z.to_nat size) l.

(** The sizes that [read] takes: those of the C type [Py_ssize_t], of
    64 bits.  Any other is refused when the argument is converted,
    before anything is read. *)
Definition fits_ssize_t (size : Z) : bool :=
  ((- 2 ^ 63 <=? size) && (size <? 2 ^ 63))%Z.

Definition not_index_sized : pystr :=
  lit "cannot fit 'int' into an index-sized integer".

(** [f.read(size)] on a text file: [size] counts characters. *)
Definition read (f : file) (size : Z) : IO pystr :=
  if fits_ssize_t size then
    sys (Read size) ;;;
    ret (upto size (text_of (data f)))
  else raise OverflowError not_index_sized.

(** [f.read(size)] on a binary file: [size] counts bytes. *)
Definition read_bytes (f : file) (size : Z) : IO (list byte) :=
  if fits_ssize_t size then
    sys (Read size) ;;;
    ret (upto size (data f))
  else raise OverflowError not_index_sized.

Definition close (f : file) : IO unit := sys Close.

(** [with open(...) as f: body]: the file is closed on the way out,
    whether [body] returns or raises; an error of the close is what
    then comes out. *)
Definition with_open {A} (path : pystr) (binary : bool) (body : file -> IO A)
  : IO A :=
  f <- open path binary ;;
  fun w =>
    let '(r, w1) := body f w in
    match close f w1 with
    | (inr _, w2) => (r, w2)
    | (inl e, w2) => (inl e, w2)
    end.

End File.

(** ** [json.loads]

    The decoder of the standard library, on a [str]: the grammar that
    the scanner accepts, with its extensions ([NaN], [Infinity],
    [-Infinity]) and its two limits (the depth of nesting, the number
    of digits of an integer).  The values are kept as they are read;
    the script looks at nothing but the keys of the outermost object. *)

Module Json.

Inductive value :=
| Null
| Bool (b : bool)
| Number (lexeme : pystr)
| String (s : pystr)
| Array (items : list value)
| Object (members : list (pystr * value)).

(** A [dict] keeps its keys in the order in which they were first set;
    setting a key again changes its value and not its place. *)
Fixpoint dict_setitem {V} (d : list (pystr * V)) (key : pystr) (v : V)
  : list (pystr * V) :=
  match d with
  | [] => [(key, v)]
  | (k, v') :: d' =>
      if str_eqb k key then (k, v) :: d'
      else (k, v') :: dict_setitem d' key v
  end.

(** [list(d.keys())] *)
Definition dict_keys {V} (d : list (pystr * V)) : list pystr := map fst d.

Definition decode_error {A} (msg : string) : exn + A :=
  inl (Exn JSONDecodeError (lit msg)).

Definition is_whitespace (c : char) : bool :=
  ((c =? 0x20) || (c =? 0x09) || (c =? 0x0A) || (c =? 0x0D))%N.

Fixpoint skip_whitespace (s : pystr) : pystr :=
  match s with
  | c :: rest => if is_whitespace c then skip_whitespace rest else s
  | [] => []
  end.

Definition is_digit (c : char) : bool := ((0x30 <=? c) && (c <=? 0x39))%N.

Definition hex_digit (c : char) : option N :=
  (if (0x30 <=? c) && (c <=? 0x39) then Some (c - 0x30)
   else if (0x61 <=? c) && (c <=? 0x66) then Some (c - 0x61 + 10)
   else if (0x41 <=? c) && (c <=? 0x46) then Some (c - 0x41 + 10)
   else None)%N.

Definition hex4 (h1 h2 h3 h4 : char) : option char :=
  match hex_digit h1, hex_digit h2, hex_digit h3, hex_digit h4 with
  | Some a, Some b, Some c, Some d => Some (((a * 16 + b) * 16 + c) * 16 + d)%N
  | _, _, _, _ => None
  end.

Definition is_high_surrogate (c : char) : bool :=
  ((0xD800 <=? c) && (c <=? 0xDBFF))%N.
Definition is_low_surrogate (c : char) : bool :=
  ((0xDC00 <=? c) && (c <=? 0xDFFF))%N.
Definition join_surrogates (hi lo : char) : char :=
  (0x10000 + (hi - 0xD800) * 0x400 + (lo - 0xDC00))%N.

(** The character that a one-letter escape stands for. *)
Definition escape (c : char) : option char :=
  (if (c =? 0x22) || (c =? 0x5C) || (c =? 0x2F) then Some c
   else if c =? 0x62 then Some 0x08
   else if c =? 0x66 then Some 0x0C
   else if c =? 0x6E then Some 0x0A
   else if c =? 0x72 then Some 0x0D
   else if c =? 0x74 then Some 0x09
   else None)%N.

Definition push {A} (c : char) (r : exn + (pystr * A)) : exn + (pystr * A) :=
  match r with
  | inr (str, rest) => inr (c :: str, rest)
  | inl e => inl e
  end.

(** [scanstring], strict, from the character after the opening quote:
    the string and the text after its closing quote. *)
Fixpoint scanstring (s : pystr) : exn + (pystr * pystr) :=
  match s with
  | [] => decode_error "Unterminated string starting at"
  | c :: rest =>
    if char_eqb c dquote then inr ([], rest)
    else if char_eqb c 0x5C%N then
      match rest with
      | [] => decode_error "Unterminated string starting at"
      | e :: rest1 =>
        if char_eqb e 0x75%N then
          match rest1 with
          | h1 :: h2 :: h3 :: h4 :: rest5 =>
            match hex4 h1 h2 h3 h4 with
            | None => decode_error "Invalid \uXXXX escape"
            | Some c1 =>
              match rest5 with
              | b :: u :: g1 :: g2 :: g3 :: g4 :: rest11 =>
                if is_high_surrogate c1 && char_eqb b 0x5C%N
                   && char_eqb u 0x75%N
                then
                  match hex4 g1 g2 g3 g4 with
                  | None => decode_error "Invalid \uXXXX escape"
                  | Some c2 =>
                      if is_low_surrogate c2
                      then push (join_surrogates c1 c2) (scanstring rest11)
                      else push c1 (scanstring rest5)
                  end
                else push c1 (scanstring rest5)
              | _ => push c1 (scanstring rest5)
              end
            end
          | _ => decode_error "Invalid \uXXXX escape"
          end
        else
          match escape e with
          | Some c' => push c' (scanstring rest1)
          | None => decode_error "Invalid \escape"
          end
      end
    else if (c <=? 0x1F)%N then decode_error "Invalid control character at"
    else push c (scanstring rest)
  end.

Fixpoint span_digits (s : pystr) : pystr * pystr :=
  match s with
  | c :: rest =>
      if is_digit c then let '(a, b) := span_digits rest in (c :: a, b)
      else ([], s)
  | [] => ([], [])
  end.

(** The longest prefix of [s] that is a JSON number: an optional minus
    sign; a zero, or a digit from 1 to 9 and any digits; optionally a
    dot and one digit or more; optionally [e] or [E], an optional sign
    and one digit or more.  The result is the lexeme, whether it has a
    fraction or an exponent, and the text after it. *)
Definition match_number (s : pystr) : option (pystr * bool * pystr) :=
  let '(sign, s1) :=
    match s with
    | c :: r => if char_eqb c 0x2D%N then ([c], r) else ([], s)
    | [] => ([], s)
    end in
  let integer :=
    match s1 with
    | c :: r =>
        if char_eqb c 0x30%N then Some ([c], r)
        else if is_digit c
        then let '(ds, r') := span_digits r in Some (c :: ds, r')
        else None
    | [] => None
    end in
  match integer with
  | None => None
  | Some (int, s2) =>
      let '(frac, s3) :=
        match s2 with
        | dot :: r =>
            match span_digits r with
            | ((_ :: _) as ds, r') =>
                if char_eqb dot 0x2E%N then (dot :: ds, r') else ([], s2)
            | _ => ([], s2)
            end
        | [] => ([], s2)
        end in
      let '(exp, s4) :=
        match s3 with
        | e :: r =>
            if char_eqb e 0x65%N || char_eqb e 0x45%N then
              let '(esign, r1) :=
                match r with
                | c :: r' =>
                    if char_eqb c 0x2D%N || char_eqb c 0x2B%N
                    then ([c], r') else ([], r)
                | [] => ([], r)
                end in
              match span_digits r1 with
              | ((_ :: _) as ds, r') => (e :: esign ++ ds, r')
              | _ => ([], s3)
              end
            else ([], s3)
        | [] => ([], s3)
        end in
      Some (sign ++ int ++ frac ++ exp,
            negb (Nat.eqb (length frac + length exp) 0), s4)
  end.

(** The conversion of the lexeme of a number: an integer of more than
    [max_digits] digits raises [ValueError]. *)
Definition number (max_digits : nat) (lexeme : pystr) (is_float : bool)
  : exn + value :=
  let digits := length (filter is_digit lexeme) in
  if negb is_float && negb (Nat.eqb max_digits 0) && (max_digits <? digits)
  then inl (Exn ValueError
              (lit "Exceeds the limit for integer string conversion"))
  else inr (Number lexeme).

Definition constant (name : string) (v : value) (s : pystr)
  : option (value * pystr) :=
  if startswith (lit name) s
  then Some (v, skipn (String.length name) s)
  else None.

(** The named constants, in the order in which the scanner tries them. *)
Definition match_constant (s : pystr) : option (value * pystr) :=
  match constant "null" Null s with
  | Some r => Some r
  | None =>
  match constant "true" (Bool true) s with
  | Some r => Some r
  | None =>
  match constant "false" (Bool false) s with
  | Some r => Some r
  | None =>
  match constant "NaN" (Number (lit "NaN")) s with
  | Some r => Some r
  | None =>
  match constant "Infinity" (Number (lit "Infinity")) s with
  | Some r => Some r
  | None => constant "-Infinity" (Number (lit "-Infinity")) s
  end end end end end.

Definition recursion_error {A} : exn + A :=
  inl (Exn RecursionError
         (lit "maximum recursion depth exceeded while decoding a JSON document")).

(** The loop over the members of an object, from its first key on.
    [scan] reads one value.  The source loops until it returns; here
    the loop has a counter [n], which starts from the number of
    characters that are left and cannot run out, each round reading
    some of them ([scan_once_counters] below). *)
Fixpoint object_loop (scan : pystr -> exn + (value * pystr)) (n : nat)
  (s : pystr) (rval : list (pystr * value)) : exn + (value * pystr) :=
  match n with
  | O => recursion_error
  | S n' =>
    match s with
    | q :: s1 =>
      if char_eqb q dquote then
        match scanstring s1 with
        | inl e => inl e
        | inr (key, s2) =>
          match skip_whitespace s2 with
          | colon :: s3 =>
            if char_eqb colon 0x3A%N then
              match scan (skip_whitespace s3) with
              | inl e => inl e
              | inr (val, s4) =>
                let rval' := dict_setitem rval key val in
                match skip_whitespace s4 with
                | d :: s5 =>
                  if char_eqb d 0x7D%N then inr (Object rval', s5)
                  else if char_eqb d 0x2C%N
                  then object_loop scan n' (skip_whitespace s5) rval'
                  else decode_error "Expecting ',' delimiter"
                | [] => decode_error "Expecting ',' delimiter"
                end
              end
            else decode_error "Expecting ':' delimiter"
          | [] => decode_error "Expecting ':' delimiter"
          end
        end
      else decode_error "Expecting property name enclosed in double quotes"
    | [] => decode_error "Expecting property name enclosed in double quotes"
    end
  end.

(** The loop over the items of an array, from its first item on. *)
Fixpoint array_loop (scan : pystr -> exn + (value * pystr)) (n : nat)
  (s : pystr) (rval : list value) : exn + (value * pystr) :=
  match n with
  | O => recursion_error
  | S n' =>
    match scan s with
    | inl e => inl e
    | inr (val, s1) =>
      let rval' := rval ++ [val] in
      match skip_whitespace s1 with
      | d :: s2 =>
        if char_eqb d 0x5D%N then inr (Array rval', s2)
        else if char_eqb d 0x2C%N
        then array_loop scan n' (skip_whitespace s2) rval'
        else decode_error "Expecting ',' delimiter"
      | [] => decode_error "Expecting ',' delimiter"
      end
    end
  end.

(** [scan_once]: one JSON value at the start of [s], and the text after
    it.  [depth] is the number of objects and arrays that may still be
    entered. *)
Fixpoint scan_once (max_digits : nat) (depth : nat) (s : pystr) {struct depth}
  : exn + (value * pystr) :=
  match s with
  | [] => decode_error "Expecting value"
  | c :: rest =>
    if char_eqb c dquote then
      match scanstring rest with
      | inr (str, rest') => inr (String str, rest')
      | inl e => inl e
      end
    else if char_eqb c 0x7B%N then
      match depth with
      | O => recursion_error
      | S depth' =>
        match skip_whitespace rest with
        | [] =>
            decode_error "Expecting property name enclosed in double quotes"
        | (c0 :: rest0) as members =>
          if char_eqb c0 0x7D%N then inr (Object [], rest0)
          else object_loop (scan_once max_digits depth')
                           (length members) members []
        end
      end
    else if char_eqb c 0x5B%N then
      match depth with
      | O => recursion_error
      | S depth' =>
        match skip_whitespace rest with
        | [] => decode_error "Expecting value"
        | (c0 :: rest0) as items =>
          if char_eqb c0 0x5D%N then inr (Array [], rest0)
          else array_loop (scan_once max_digits depth')
                          (length items) items []
        end
      end
    else
      match match_constant s with
      | Some r => inr r
      | None =>
        match match_number s with
        | Some (lexeme, is_float, rest') =>
          match number max_digits lexeme is_float with
          | inr v => inr (v, rest')
          | inl e => inl e
          end
        | None => decode_error "Expecting value"
        end
      end
  end.

(** [json.loads(s)] *)
Definition loads (max_digits depth : nat) (s : pystr) : exn + value :=
  if startswith [0xFEFF%N] s
  then decode_error "Unexpected UTF-8 BOM (decode using utf-8-sig)"
  else
    match scan_once max_digits depth (skip_whitespace s) with
    | inl e => inl e
    | inr (obj, rest) =>
        match skip_whitespace rest with
        | [] => inr obj
        | _ :: _ => decode_error "Extra data"
        end
    end.

End Json.

(** ** The regular expression of the script

    [re.findall] with the pattern of line 55: a double quote, a group
    of one character or more that are not double quotes, a double
    quote, and a lookahead for white space and a colon.  At a given
    position the pattern can match in one way only: the group is greedy
    and takes every character up to the next double quote, and giving
    some back never helps, since the character after the group has to
    be a double quote; likewise the lookahead takes all the white
    space, and a colon is not white space. *)

Module Re.

Fixpoint span_not_dquote (s : pystr) : pystr * pystr :=
  match s with
  | c :: rest =>
      if char_eqb c dquote then ([], s)
      else let '(a, b) := span_not_dquote rest in (c :: a, b)
  | [] => ([], [])
  end.

(** The lookahead: white space, then a colon. *)
Definition lookahead_colon (s : pystr) : bool :=
  startswith (lit ":") (lstrip s).

(** The match of the pattern at the start of [s], if there is one:
    group 1 and the number of characters matched. *)
Definition match_key (s : pystr) : option (pystr * nat) :=
  match s with
  | c :: rest =>
      if char_eqb c dquote then
        match span_not_dquote rest with
        | ((_ :: _) as key, _ :: after) =>
            if lookahead_colon after then Some (key, length key + 2)
            else None
        | _ => None
        end
      else None
  | [] => None
  end.

(** [findall]: the matches are taken from left to right; after a match
    the search goes on where the match ends, after a failure one
    character further. *)
Fixpoint findall_from (skip : nat) (s : pystr) : list pystr :=
  match s with
  | [] => []
  | _ :: rest =>
      match skip with
      | S k => findall_from k rest
      | O =>
          match match_key s with
          | Some (key, n) => key :: findall_from (n - 1) rest
          | None => findall_from 0 rest
          end
      end
  end.

Definition findall_keys (s : pystr) : list pystr := findall_from 0 s.

End Re.

(** ** The fast path of [analyze_json_structure] (lines 46-71) *)

(** Lines 59-62: the loop that collects the first few distinct keys. *)
Fixpoint unique_keys_loop (keys unique_keys : list pystr) (max_items : Z)
  : list pystr :=
  match keys with
  | [] => unique_keys
  | key :: keys' =>
      if negb (str_in key unique_keys) && (len unique_keys <? max_items)%Z
      then unique_keys_loop keys' (unique_keys ++ [key]) max_items
      else unique_keys_loop keys' unique_keys max_items
  end.

Definition clean (content : pystr) : pystr :=
  replace (lit "NaN") (lit "null") content.

(** The keys that the fast path lists for the text [start_content]. *)
Definition tier1_keys (start_content : pystr) (max_items : Z) : list pystr :=
  unique_keys_loop (Re.findall_keys (slice_to 1000 (clean start_content)))
                   [] max_items.

Definition keys_description (keys : list pystr) : pystr :=
  lit "JSON object with keys including: " ++ join (lit ", ") keys.

(** What the fast path returns once [start_content] has been read. *)
Definition tier1_describe (start_content : pystr) (max_items : Z) : pystr :=
  let clean_content := clean start_content in
  if startswith (lit "{") (strip clean_content) then
    let keys := Re.findall_keys (slice_to 1000 clean_content) in
    match keys with
    | _ :: _ => keys_description (unique_keys_loop keys [] max_items)
    | [] => lit "JSON object (dictionary)"
    end
  else if startswith (lit "[") (strip clean_content) then
    lit "JSON array (list)"
  else
    lit "Unknown JSON structure".

(** ** The second and the third attempt of [analyze_json_structure] *)

(** Lines 84-94: the position after the brace that closes the first
    brace opened, or [0] if there is none. *)
Fixpoint find_end_pos (clean_content : pystr) (i bracket_count : Z) : Z :=
  match clean_content with
  | [] => 0
  | char :: rest =>
      if char_eqb char 0x7B%N
      then find_end_pos rest (i + 1) (bracket_count + 1)
      else if char_eqb char 0x7D%N then
        let bracket_count := (bracket_count - 1)%Z in
        if (bracket_count =? 0)%Z then (i + 1)%Z
        else find_end_pos rest (i + 1) bracket_count
      else find_end_pos rest (i + 1) bracket_count
  end.

(** [first_obj.keys()]: only a [dict] has keys. *)
Definition keys_of (first_obj : Json.value) : exn + list pystr :=
  match first_obj with
  | Json.Object members => inr (Json.dict_keys members)
  | _ => inl (Exn AttributeError (lit "object has no attribute 'keys'"))
  end.

(** Lines 79-102: what the second attempt returns or raises once
    [content] has been read. *)
Definition tier2_describe (max_digits depth : nat) (content : pystr)
  (max_items : Z) : exn + pystr :=
  let clean_content := clean content in
  let not_parsed :=
    lit "JSON structure detected, but details could not be parsed" in
  if startswith (lit "{") (strip clean_content) then
    let end_pos := find_end_pos clean_content 0 0 in
    if (0 <? end_pos)%Z then
      match Json.loads max_digits depth (slice_to end_pos clean_content) with
      | inl e => inl e
      | inr first_obj =>
          match keys_of first_obj with
          | inl e => inl e
          | inr all_keys =>
              let keys := slice_to max_items all_keys in
              inr (keys_description keys)
          end
      end
    else inr not_parsed
  else inr not_parsed.

(** Lines 108-114: what the third attempt returns for the first byte. *)
Definition tier3_describe (first_byte : list byte) : pystr :=
  let first_char := Utf8.decode_ignore first_byte in
  if str_eqb first_char (lit "{")
  then lit "JSON object (dictionary) with NaN values"
  else if str_eqb first_char (lit "[")
  then lit "JSON array (list) with NaN values"
  else lit "Unknown JSON structure with possible NaN values".

(** ** [analyze_json_structure] and [preview_large_json] *)

(** Lines 41-71. *)
Definition tier1 (file_path : pystr) (max_items : Z) : IO pystr :=
  File.with_open file_path false (fun f =>
    start_content <- File.read f 1024 ;;
    ret (tier1_describe start_content max_items)).

(** Lines 77-102. *)
Definition tier2 (file_path : pystr) (max_items : Z) : IO pystr :=
  File.with_open file_path false (fun f =>
    content <- File.read f 10240 ;;
    max_digits <- ask int_max_str_digits ;;
    depth <- ask recursion_limit ;;
    lift (tier2_describe max_digits depth content max_items)).

(** Lines 107-114. *)
Definition tier3 (file_path : pystr) : IO pystr :=
  File.with_open file_path true (fun f =>
    first_byte <- File.read_bytes f 1 ;;
    ret (tier3_describe first_byte)).

(** The exceptions of this model are all instances of [Exception], so
    that [except Exception] and a bare [except] catch the same. *)
Definition analyze_json_structure (file_path : pystr) (max_items : Z)
  : IO pystr :=
  try tier1 file_path max_items
  except e =>
    try tier2 file_path max_items
    except nested_e =>
      try tier3 file_path
      except _ => ret (lit "Could not analyze structure: " ++ str_exn e).

Record ProbeResult := {
  preview : pystr;
  structure : pystr;
  file_size : Z
}.

(** The part of [preview_large_json] before the call of the analyzer
    (lines 13-17): the size of the file and the preview. *)
Definition read_preview (file_path : pystr) (max_bytes : Z) : IO (Z * pystr) :=
  file_size <- File.getsize file_path ;;
  preview_data <- File.with_open file_path false (fun f =>
                    File.read f max_bytes) ;;
  ret (file_size, preview_data).

Definition preview_large_json (file_path : pystr) (max_bytes : Z)
  : IO ProbeResult :=
  try
    sp <- read_preview file_path max_bytes ;;
    structure_info <- analyze_json_structure file_path 5 ;;
    ret {| preview := snd sp;
           structure := structure_info;
           file_size := fst sp |}
  except e =>
    ret {| preview := lit "Error reading file: " ++ str_exn e;
           structure := lit "Error";
           file_size := 0 |}.

(** ** Numbers and [format_file_size]

    The size starts as an [int] and becomes a [float] at the first
    division.  A finite [float] is a binary fraction: [Float m k] is
    the number [m / 2^k], with [0 <= k]. *)

Module PyNum.

Inductive number :=
| Int (n : Z)
| Float (m : Z) (k : Z).

(** The nearest integer with a significand of 53 bits, ties to even:
    the value of [float(n)]. *)
Definition round53 (n : Z) : Z :=
  let a := Z.abs n in
  if (a <? 2 ^ 53)%Z then n
  else
    let e := (Z.log2 a - 52)%Z in
    let q := (a / 2 ^ e)%Z in
    let r := (a mod 2 ^ e)%Z in
    let half := (2 ^ (e - 1))%Z in
    let q' :=
      if (r <? half)%Z then q
      else if (half <? r)%Z then (q + 1)%Z
      else if Z.even q then q else (q + 1)%Z in
    (Z.sgn n * (q' * 2 ^ e))%Z.

(** [x / 1024].  The quotient of an [int] is rounded to the nearest
    [float] and is too large for one from [2^1034] on; the quotient of
    a [float] that is zero or at least 1 by a power of two is exact. *)
Definition truediv_1024 (x : number) : exn + number :=
  match x with
  | Int n =>
      if (2 ^ 1034 <=? Z.abs (round53 n))%Z
      then inl (Exn OverflowError
                  (lit "integer division result too large for a float"))
      else inr (Float (round53 n) 10)
  | Float m k => inr (Float m (k + 10))
  end.

(** [x < 1024] *)
Definition lt_1024 (x : number) : bool :=
  match x with
  | Int n => (n <? 1024)%Z
  | Float m k => (m <? 1024 * 2 ^ k)%Z
  end.

(** The integer nearest to [a / b], ties to even, for [0 <= a], [0 < b]. *)
Definition div_half_even (a b : Z) : Z :=
  let q := (a / b)%Z in
  let r := (a mod b)%Z in
  if (2 * r <? b)%Z then q
  else if (b <? 2 * r)%Z then (q + 1)%Z
  else if Z.even q then q else (q + 1)%Z.

(** The hundredths that [x] is rounded to, in absolute value.  An
    [int] is rendered as the [float] that it converts to. *)
Definition hundredths (x : number) : Z :=
  match x with
  | Int n => (100 * Z.abs (round53 n))%Z
  | Float m k => div_half_even (100 * Z.abs m) (2 ^ k)
  end.

Definition is_negative (x : number) : bool :=
  match x with
  | Int n => (n <? 0)%Z
  | Float m _ => (m <? 0)%Z
  end.

(** The decimal digits of a natural number. *)
Definition digits (n : Z) : pystr :=
  lit (NilZero.string_of_uint (N.to_uint (Z.to_N n))).

(** The two digits of a number below 100. *)
Definition two_digits (n : Z) : pystr :=
  digits (n / 10) ++ digits (n mod 10).

(** The digits of the format [.2f]: the decimal fraction with two
    digits after the point that is nearest to [x], ties to even. *)
Definition format_2f (x : number) : pystr :=
  let h := hundredths x in
  (if is_negative x then lit "-" else [])
  ++ digits (h / 100) ++ lit "." ++ two_digits (h mod 100).

(** [format(x, '.2f')], which the f-string calls: an [int] is converted
    to a [float] first, and is too large for one when it rounds to
    [2^1024] or more. *)
Definition format_spec_2f (x : number) : exn + pystr :=
  match x with
  | Int n =>
      if (2 ^ 1024 <=? Z.abs (round53 n))%Z
      then inl (Exn OverflowError (lit "int too large to convert to float"))
      else inr (format_2f x)
  | Float _ _ => inr (format_2f x)
  end.

End PyNum.
Import PyNum.

(** Lines 131-134: the loop over the units.  When the loop runs out of
    units the function reaches its end and returns [None]. *)
Fixpoint format_file_size_loop (units : list pystr) (size_in_bytes : number)
  : exn + option pystr :=
  match units with
  | [] => inr None
  | unit :: units' =>
      if lt_1024 size_in_bytes || str_eqb unit (lit "GB")
      then
        match format_spec_2f size_in_bytes with
        | inl e => inl e
        | inr size => inr (Some (size ++ lit " " ++ unit))
        end
      else
        match truediv_1024 size_in_bytes with
        | inl e => inl e
        | inr size_in_bytes' => format_file_size_loop units' size_in_bytes'
        end
  end.

Definition format_file_size (size_in_bytes : Z) : exn + option pystr :=
  format_file_size_loop [lit "B"; lit "KB"; lit "MB"; lit "GB"]
                        (Int size_in_bytes).


(** ** Sample worlds *)

(** A world with one file, at [path]; every other path does not exist. *)
Definition one_file (path : pystr) (bytes : list byte)
  (faults : list (option pystr)) : World :=
  {| files := fun p =>
       if str_eqb p path then inr bytes
       else inl (lit "[Errno 2] No such file or directory");
     faults := faults;
     trace := [];
     recursion_limit := 1000;
     int_max_str_digits := 4300 |}.

(** The file of the example of the design document: an object with a
    [NaN] in it. *)
Definition nan_file : list byte := Utf8.encode (dq "{'x': NaN, 'y': 2}").

(** A file whose braces match and which is not JSON. *)
Definition broken_file : list byte := Utf8.encode (lit "{a}").

(** A world in which the first system call fails and [broken_file] is
    at [a.json]. *)
Definition broken_world : World :=
  one_file (lit "a.json") broken_file
           [Some (lit "[Errno 5] Input/output error")].

Definition not_parsed : pystr :=
  lit "JSON structure detected, but details could not be parsed".


(** The distinct elements of a list of keys, each where it first
    occurs. *)
Fixpoint first_seen (keys : list pystr) : list pystr :=
  match keys with
  | [] => []
  | key :: keys' =>
      key :: filter (fun k => negb (str_eqb key k)) (first_seen keys')
  end.

(** An object of six keys, the first with a value of a thousand
    characters. *)
Definition six_keys_text : pystr :=
  dq "{'a': '" ++ repeat 0x78%N 1000
     ++ dq "', 'b': 1, 'c': 2, 'd': 3, 'e': 4, 'f': 5}".

Definition six_keys_file : list byte := Utf8.encode six_keys_text.




(** A text without a double quote. *)
Definition no_dquote (s : pystr) : Prop := Forall (fun c => c <> dquote) s.

(** An object with a key that has [NaN] in its name. *)
Definition nan_key_file : list byte := Utf8.encode (dq "{'NaNCount': 1}").

(** A scanner that leaves less than it is given. *)
Definition shrinking (scan : pystr -> exn + (Json.value * pystr)) : Prop :=
  forall s v rest, scan s = inr (v, rest) -> length rest < length s.

(** The number of system calls made so far. *)
Definition calls (w : World) : nat := length (trace w).


Definition units : list pystr := [lit "B"; lit "KB"; lit "MB"; lit "GB"].

(** [returns m]: whatever the world, [m] returns a value and does not
    raise. *)
Definition returns {A} (m : IO A) : Prop :=
  forall w, exists x w', m w = (inr x, w').

(** [extends m n]: [m] makes at least [n] system calls. *)
Definition extends {A} (m : IO A) (n : nat) : Prop :=
  forall w, calls w + n <= calls (snd (m w)).


Definition lbrace : char := 0x7B%N.
Definition rbrace : char := 0x7D%N.

(** The opening braces of a text less its closing braces, wherever
    they stand. *)
Fixpoint brace_depth (s : pystr) : Z :=
  match s with
  | [] => 0
  | c :: rest =>
      ((if char_eqb c lbrace then 1
        else if char_eqb c rbrace then -1 else 0) + brace_depth rest)%Z
  end.

(** ** Directories and [find_json_files] *)

(** [s.endswith(suffix)] *)
Definition endswith (suffix s : pystr) : bool :=
  startswith (rev suffix) (rev s).

Module Os.

(** What [os.walk] finds at a path: something that is not a directory,
    or a directory, or a symbolic link to one, with what [scandir]
    lists in it, in the order in which it lists it.  A directory
    without a listing is one on which [scandir] fails. *)
Inductive entry :=
| NonDir
| Dir (link : bool) (listing : option (list (pystr * entry))).

(** [entry.is_dir()], which follows symbolic links. *)
Definition is_dir (e : entry) : bool :=
  match e with
  | Dir _ _ => true
  | NonDir => false
  end.

(** [os.path.islink] *)
Definition islink (e : entry) : bool :=
  match e with
  | Dir link _ => link
  | NonDir => false
  end.

(** [os.path.join(a, b)] of [posixpath]. *)
Definition path_join (a b : pystr) : pystr :=
  if startswith (lit "/") b then b
  else if match a with [] => true | _ :: _ => endswith (lit "/") a end
  then a ++ b
  else a ++ lit "/" ++ b.

(** [os.walk(top)], top down, without [onerror] and without following
    links: the triples [(root, dirs, files)], a directory before the
    directories in it, these in the order of its listing.  The top is
    listed whether it is a link or not; a directory below it that is a
    link is named among the [dirs] and not entered.  A top that cannot
    be listed gives nothing. *)
Fixpoint walk (top : pystr) (e : entry)
  : list (pystr * list pystr * list pystr) :=
  match e with
  | Dir _ (Some entries) =>
      (top,
       map fst (filter (fun ne => is_dir (snd ne)) entries),
       map fst (filter (fun ne => negb (is_dir (snd ne))) entries))
      :: (fix subdirs (l : list (pystr * entry)) :=
            match l with
            | [] => []
            | (name, sub) :: l' =>
                (if is_dir sub && negb (islink sub)
                 then walk (path_join top name) sub else [])
                ++ subdirs l'
            end) entries
  | _ => []
  end.

End Os.

(** Lines 122-127; [tree] is what is at [base_dir]. *)
Definition find_json_files (base_dir : pystr) (tree : Os.entry)
  : list pystr :=
  fold_left
    (fun json_files '(root, dirs, files) =>
       fold_left
         (fun json_files file =>
            if endswith (lit ".json") file
            then json_files ++ [Os.path_join root file]
            else json_files)
         files json_files)
    (Os.walk base_dir tree) [].


(** A directory with a file, a directory whose name ends like a file's,
    a file whose suffix is in capitals, a directory that cannot be
    listed, and a link to a directory. *)
Definition sample_tree : Os.entry :=
  Os.Dir false
    (Some [(lit "a.json", Os.NonDir);
           (lit "b.json", Os.Dir false (Some [(lit "c.json", Os.NonDir);
                                              (lit "d.txt", Os.NonDir)]));
           (lit "e.JSON", Os.NonDir);
           (lit "locked", Os.Dir false None);
           (lit "link", Os.Dir true (Some [(lit "f.json", Os.NonDir)]))]).

(** ** What the bytes of a file hold

    The text that a reader is to find in bytes that need not be UTF-8,
    said without the decoder. *)






(** An object whose sixth key has [NaN] in its name. *)
Definition nan_sixth_file : list byte :=
  Utf8.encode
    (dq "{'a': 1, 'b': 2, 'c': 3, 'd': 4, 'e': 5, 'NaNCount': 6}").

(** What a run of an attempt leaves of the world: the files, and the
    limits of the interpreter. *)
Definition same_files (w w' : World) : Prop :=
  files w' = files w
  /\ recursion_limit w' = recursion_limit w
  /\ int_max_str_digits w' = int_max_str_digits w.

(** The world of [broken_file] when the first read of it fails. *)
Definition broken_read_world : World :=
  one_file (lit "a.json") broken_file
           [None; Some (lit "[Errno 5] Input/output error")].

(** The paths that reach the operating system.  [open] and [os.stat]
    encode a path for the file system, in UTF-8 with the handler
    [surrogateescape], and refuse with a [ValueError], before any
    system call, a path that has a NUL character or a surrogate other
    than U+DC80 to U+DCFF.  The worlds of this model say what the
    operating system does at a path, and say it with an [OSError]. *)
Definition fs_path (path : pystr) : bool :=
  forallb (fun c =>
             negb (c =? 0)%N
             && negb ((0xD800 <=? c)%N && (c <=? 0xDFFF)%N
                      && negb ((0xDC80 <=? c)%N && (c <=? 0xDCFF)%N)))
          path.

(** What the last attempt of [analyze_json_structure] says of a file,
    by its first byte. *)
Definition first_byte_class (bytes : list byte) : pystr :=
  match bytes with
  | b :: _ =>
      if Byte.eqb b "{"%byte then lit "JSON object (dictionary) with NaN values"
      else if Byte.eqb b "["%byte then lit "JSON array (list) with NaN values"
      else lit "Unknown JSON structure with possible NaN values"
  | [] => lit "Unknown JSON structure with possible NaN values"
  end.

(** * Properties *)

Unset Implicit Arguments.

(** ** Examples of the fast path *)

Example tier1_abc :
  tier1_describe (dq "{'a': 1, 'b': 2, 'c': 3}") 5
  = lit "JSON object with keys including: a, b, c".
Proof. reflexivity. Qed.

Example tier1_array :
  tier1_describe (lit "[1, 2, 3]") 5 = lit "JSON array (list)".
Proof. reflexivity. Qed.

Example tier1_nested :
  tier1_describe (dq "{'a': {'b': 'x', 'a' : 1}, 'c': [1, 2]} ") 5
  = lit "JSON object with keys including: a, b, c".
Proof. reflexivity. Qed.

(** ** Computations that return *)

Lemma returns_ret {A} (x : A) : returns (ret x).
Proof. intros w. exists x, w. reflexivity. Qed.

Lemma returns_try_except {A} (m : IO A) (handler : exn -> IO A) :
  (forall e, returns (handler e)) -> returns (try_except m handler).
Proof.
  intros Hh w. unfold try_except.
  destruct (m w) as [[e | x] w1].
  - apply Hh.
  - exists x, w1. reflexivity.
Qed.

Lemma returns_bind {A B} (m : IO A) (k : A -> IO B) :
  returns m -> (forall x, returns (k x)) -> returns (bind m k).
Proof.
  intros Hm Hk w. unfold bind.
  destruct (Hm w) as (x & w1 & ->). apply Hk.
Qed.

Lemma analyze_json_structure_returns file_path max_items :
  returns (analyze_json_structure file_path max_items).
Proof.
  unfold analyze_json_structure.
  apply returns_try_except; intros e.
  apply returns_try_except; intros nested_e.
  apply returns_try_except; intros _.
  apply returns_ret.
Qed.

(** C1: whatever the path, the byte budget and the state of the file
    system, and whichever system calls fail, [preview_large_json]
    returns a [ProbeResult] and [analyze_json_structure] returns a
    description: neither raises. *)
Theorem probe_never_raises :
  forall (file_path : pystr) (max_bytes max_items : Z) (w : World),
    (exists r w', preview_large_json file_path max_bytes w = (inr r, w'))
    /\ (exists d w',
          analyze_json_structure file_path max_items w = (inr d, w')).
Proof.
  intros file_path max_bytes max_items w. split.
  - unfold preview_large_json.
    apply returns_try_except. intros e. apply returns_ret.
  - apply analyze_json_structure_returns.
Qed.

(** ** The record of system calls *)

Lemma extends_ret {A} (x : A) : extends (ret x) 0.
Proof. intros w. simpl. lia. Qed.

Lemma extends_raise {A} cls msg : extends (@raise A cls msg) 0.
Proof. intros w. simpl. lia. Qed.

Lemma extends_lift {A} (r : exn + A) : extends (lift r) 0.
Proof. intros w. simpl. lia. Qed.

Lemma extends_ask {A} (f : World -> A) : extends (ask f) 0.
Proof. intros w. simpl. lia. Qed.

Lemma extends_sys call : extends (sys call) 1.
Proof.
  intros w. unfold sys, calls.
  destruct (faults w) as [|[msg|] l]; simpl; rewrite length_app; simpl; lia.
Qed.

Lemma extends_weaken {A} (m : IO A) n n' :
  extends m n -> n' <= n -> extends m n'.
Proof. intros H Hle w. specialize (H w). lia. Qed.

Lemma extends_bind {A B} (m : IO A) (k : A -> IO B) n :
  extends m n -> (forall x, extends (k x) 0) -> extends (bind m k) n.
Proof.
  intros Hm Hk w. unfold bind. specialize (Hm w).
  destruct (m w) as [[e | x] w1]; simpl in *.
  - exact Hm.
  - specialize (Hk x w1). lia.
Qed.

Lemma extends_try_except {A} (m : IO A) (h : exn -> IO A) n :
  extends m n -> (forall e, extends (h e) 0) -> extends (try_except m h) n.
Proof.
  intros Hm Hh w. unfold try_except. specialize (Hm w).
  destruct (m w) as [[e | x] w1]; simpl in *.
  - specialize (Hh e w1). lia.
  - exact Hm.
Qed.

Lemma extends_with_open {A} path binary (body : File.file -> IO A) :
  (forall f, extends (body f) 0) -> extends (File.with_open path binary body) 1.
Proof.
  intros Hb. unfold File.with_open, File.open.
  apply extends_bind.
  - apply extends_bind; [apply extends_sys|]. intros _.
    apply extends_bind; [apply extends_ask|].
    intros [msg | bytes]; [apply extends_raise | apply extends_ret].
  - intros f w. specialize (Hb f w).
    destruct (body f w) as [r w1]. simpl in Hb.
    pose proof (extends_sys Close w1) as Hc. unfold File.close.
    destruct (sys Close w1) as [[e | u] w2]; simpl in *; lia.
Qed.

Lemma extends_read f size : extends (File.read f size) 0.
Proof.
  unfold File.read. destruct (File.fits_ssize_t size); [|apply extends_raise].
  eapply extends_weaken.
  - apply extends_bind; [apply extends_sys|]. intros _. apply extends_ret.
  - lia.
Qed.

Lemma extends_read_bytes f size : extends (File.read_bytes f size) 0.
Proof.
  unfold File.read_bytes.
  destruct (File.fits_ssize_t size); [|apply extends_raise].
  eapply extends_weaken.
  - apply extends_bind; [apply extends_sys|]. intros _. apply extends_ret.
  - lia.
Qed.

Lemma extends_tier1 path max_items : extends (tier1 path max_items) 1.
Proof.
  apply extends_with_open. intros f.
  apply extends_bind; [apply extends_read|]. intros x. apply extends_ret.
Qed.

Lemma extends_tier2 path max_items : extends (tier2 path max_items) 0.
Proof.
  eapply extends_weaken; [|apply Nat.le_0_l with (n := 1)].
  apply extends_with_open. intros f.
  apply extends_bind; [apply extends_read|]. intros x.
  apply extends_bind; [apply extends_ask|]. intros y.
  apply extends_bind; [apply extends_ask|]. intros z.
  apply extends_lift.
Qed.

Lemma extends_tier3 path : extends (tier3 path) 0.
Proof.
  eapply extends_weaken; [|apply Nat.le_0_l with (n := 1)].
  apply extends_with_open. intros f.
  apply extends_bind; [apply extends_read_bytes|]. intros x.
  apply extends_ret.
Qed.

(** The analyzer cannot run without a trace: it opens the file first. *)
Lemma analyze_json_structure_extends path max_items :
  extends (analyze_json_structure path max_items) 1.
Proof.
  unfold analyze_json_structure.
  apply extends_try_except; [apply extends_tier1|]. intros e.
  apply extends_try_except; [apply extends_tier2|]. intros e2.
  apply extends_try_except; [apply extends_tier3|]. intros e3.
  apply extends_ret.
Qed.

(** ** When the preview read fails *)

Lemma preview_large_json_read_raises file_path max_bytes w e w' :
  read_preview file_path max_bytes w = (inl e, w') ->
  preview_large_json file_path max_bytes w
  = (inr {| preview := lit "Error reading file: " ++ str_exn e;
            structure := lit "Error";
            file_size := 0 |}, w').
Proof.
  intros H. unfold preview_large_json, try_except, bind.
  rewrite H. reflexivity.
Qed.

Lemma getsize_missing path msg w :
  files w path = inl msg ->
  exists e w', File.getsize path w = (inl e, w').
Proof.
  intros H. unfold File.getsize, bind, sys, ask.
  destruct (faults w) as [|[m|] l]; simpl; try rewrite H; unfold raise;
    eauto.
Qed.

Lemma read_preview_missing path max_bytes msg w :
  files w path = inl msg ->
  exists e w', read_preview path max_bytes w = (inl e, w').
Proof.
  intros H. destruct (getsize_missing path msg w H) as (e & w' & Hg).
  exists e, w'. unfold read_preview, bind at 1. rewrite Hg. reflexivity.
Qed.

(** C6: when the read of the preview fails -- the size cannot be had,
    or the file cannot be opened, read or closed; in particular when
    nothing is at the path -- the probe does not raise: it returns a
    result whose size is 0 and whose preview is the text
    [Error reading file: ] followed by the message of the error. *)
Theorem read_failure_result :
  forall (file_path : pystr) (max_bytes : Z) (w : World),
    (exists msg, files w file_path = inl msg)
    \/ (exists e w', read_preview file_path max_bytes w = (inl e, w')) ->
    exists e r w',
      preview_large_json file_path max_bytes w = (inr r, w')
      /\ file_size r = 0%Z
      /\ preview r = lit "Error reading file: " ++ str_exn e
      /\ startswith (lit "Error reading file:") (preview r) = true.
Proof.
  intros file_path max_bytes w H.
  assert (exists e w', read_preview file_path max_bytes w = (inl e, w'))
    as (e & w' & Hr).
  { destruct H as [[msg H] | H]; [|exact H].
    eapply read_preview_missing; eauto. }
  exists e. eexists. exists w'. split.
  - apply preview_large_json_read_raises. exact Hr.
  - repeat split.
Qed.

Lemma read_failure_result_witness :
  exists e r w',
    preview_large_json (lit "missing.json") 10240
      (one_file (lit "routes.json") [] []) = (inr r, w')
    /\ file_size r = 0%Z
    /\ preview r = lit "Error reading file: " ++ str_exn e
    /\ startswith (lit "Error reading file:") (preview r) = true.
Proof.
  apply read_failure_result. left. eexists. reflexivity.
Defined.

(** C9: when the size cannot be had or the preview read raises, the
    structure of the result is the string [Error] and the analyzer has
    not been called: the world is left as it was when the read failed,
    whereas a call of the analyzer always makes a system call more. *)
Theorem read_failure_skips_analysis :
  forall (file_path : pystr) (max_bytes : Z) (w : World) (e : exn) (w1 : World),
    read_preview file_path max_bytes w = (inl e, w1) ->
    (exists r,
       preview_large_json file_path max_bytes w = (inr r, w1)
       /\ structure r = lit "Error")
    /\ (forall w0, calls w0 < calls (snd (analyze_json_structure file_path 5 w0))).
Proof.
  intros file_path max_bytes w e w1 H. split.
  - eexists. split.
    + apply preview_large_json_read_raises. exact H.
    + reflexivity.
  - intros w0. pose proof (analyze_json_structure_extends file_path 5 w0). lia.
Qed.

Lemma read_failure_skips_analysis_witness :
  (exists r,
     preview_large_json (lit "missing.json") 10240
       (one_file (lit "routes.json") [] [])
     = (inr r, snd (read_preview (lit "missing.json") 10240
                      (one_file (lit "routes.json") [] [])))
     /\ structure r = lit "Error")
  /\ (forall w0,
        calls w0 < calls (snd (analyze_json_structure (lit "missing.json") 5 w0))).
Proof.
  eapply read_failure_skips_analysis. reflexivity.
Defined.

(** ** Runs in which the system calls succeed *)

Lemma quiet_nil n : quiet n [].
Proof. unfold quiet. rewrite firstn_nil. constructor. Qed.

Lemma quiet_cons n fault l :
  quiet (S n) (fault :: l) <-> fault = None /\ quiet n l.
Proof.
  unfold quiet. simpl. split.
  - intros H. inversion H. auto.
  - intros [H1 H2]. constructor; assumption.
Qed.

Lemma quiet_le n m l : quiet n l -> m <= n -> quiet m l.
Proof.
  revert m l. induction n as [|n IH]; intros m l H Hle.
  - replace m with 0 by lia. constructor.
  - destruct m as [|m]; [constructor|].
    destruct l as [|fault l]; [apply quiet_nil|].
    apply quiet_cons in H. destruct H as [H1 H2].
    apply quiet_cons. split; [assumption|]. apply IH; [assumption | lia].
Qed.

Lemma record_record made1 made2 w :
  record made2 (record made1 w) = record (made1 ++ made2) w.
Proof.
  unfold record. simpl. f_equal.
  - rewrite skipn_skipn, length_app. f_equal. lia.
  - rewrite app_assoc. reflexivity.
Qed.


Lemma sys_fault call msg l w :
  faults w = Some msg :: l ->
  sys call w = (inl (Exn OSError msg), record [call] w)
  /\ faults (record [call] w) = l.
Proof. intros H. unfold sys. simpl. rewrite H. split; reflexivity. Qed.

(** The cases of a list of faults whose first three entries are quiet. *)
Ltac quiet3 H l :=
  let f1 := fresh "f" in let f2 := fresh "f" in let f3 := fresh "f" in
  destruct l as [|f1 [|f2 [|f3 l]]];
  repeat match type of H with
         | quiet (S _) (_ :: _) =>
             apply quiet_cons in H; let E := fresh "E" in destruct H as [E H];
             subst
         end.

Lemma tier1_quiet path max_items bytes w :
  files w path = inr bytes ->
  quiet 3 (faults w) ->
  tier1 path max_items w
  = (inr (tier1_describe (File.upto 1024 (File.text_of bytes)) max_items),
     record [Open path false; Read 1024%Z; Close] w).
Proof.
  intros Hf Hq.
  unfold tier1, File.with_open, File.open, File.read, File.close, bind, ask,
    sys, ret, record.
  destruct w as [fs fl tr rl md]. simpl in *.
  quiet3 Hq fl; simpl; rewrite Hf; simpl; rewrite <- ?app_assoc; reflexivity.
Qed.

Lemma tier2_quiet path max_items bytes w :
  files w path = inr bytes ->
  quiet 3 (faults w) ->
  tier2 path max_items w
  = (tier2_describe (int_max_str_digits w) (recursion_limit w)
       (File.upto 10240 (File.text_of bytes)) max_items,
     record [Open path false; Read 10240%Z; Close] w).
Proof.
  intros Hf Hq.
  unfold tier2, File.with_open, File.open, File.read, File.close, bind, ask,
    sys, ret, lift, record.
  destruct w as [fs fl tr rl md]. simpl in *.
  quiet3 Hq fl; simpl; rewrite Hf; simpl; rewrite <- ?app_assoc; reflexivity.
Qed.

Lemma tier3_quiet path bytes w :
  files w path = inr bytes ->
  quiet 3 (faults w) ->
  tier3 path w
  = (inr (tier3_describe (File.upto 1 bytes)),
     record [Open path true; Read 1%Z; Close] w).
Proof.
  intros Hf Hq.
  unfold tier3, File.with_open, File.open, File.read_bytes, File.close, bind,
    ask, sys, ret, record.
  destruct w as [fs fl tr rl md]. simpl in *.
  quiet3 Hq fl; simpl; rewrite Hf; simpl; rewrite <- ?app_assoc; reflexivity.
Qed.

(** The first open fails. *)
Lemma tier1_fault path max_items msg l w :
  faults w = Some msg :: l ->
  tier1 path max_items w
  = (inl (Exn OSError msg), record [Open path false] w).
Proof.
  intros H. unfold tier1, File.with_open, File.open, bind, sys.
  rewrite H. reflexivity.
Qed.

Lemma read_preview_quiet path max_bytes bytes w :
  files w path = inr bytes ->
  quiet 4 (faults w) ->
  File.fits_ssize_t max_bytes = true ->
  read_preview path max_bytes w
  = (inr (len bytes, File.upto max_bytes (File.text_of bytes)),
     record [Stat path; Open path false; Read max_bytes; Close] w).
Proof.
  intros Hf Hq Hfit.
  unfold read_preview, File.getsize, File.with_open, File.open, File.read,
    File.close, bind, ask, sys, ret, record.
  rewrite Hfit.
  destruct w as [fs fl tr rl md]. simpl in *.
  destruct fl as [|f0 fl]; [|apply quiet_cons in Hq; destruct Hq as [-> Hq]];
    [|quiet3 Hq fl]; simpl; repeat (rewrite Hf; simpl);
    rewrite <- ?app_assoc; reflexivity.
Qed.

(** When the preview is read, the result holds it, with the size of
    the file and whatever the analyzer says. *)
Lemma preview_large_json_read_returns path max_bytes w size text w1 :
  read_preview path max_bytes w = (inr (size, text), w1) ->
  exists d w2,
    analyze_json_structure path 5 w1 = (inr d, w2)
    /\ preview_large_json path max_bytes w
       = (inr {| preview := text; structure := d; file_size := size |}, w2).
Proof.
  intros H.
  destruct (analyze_json_structure_returns path 5 w1) as (d & w2 & Ha).
  exists d, w2. split; [exact Ha|].
  unfold preview_large_json, try_except, bind. rewrite H, Ha. reflexivity.
Qed.

(** ** The example with [NaN] *)

(** C5: for a file whose content is the object with keys [x] and [y]
    and the value [NaN], the fast path returns, when its system calls
    succeed: the text it looks at has [null] for [NaN], the keys it
    finds are [x] and [y] in that order, and the analyzer answers with
    the first attempt. *)
Theorem nan_file_fast_path :
  forall (file_path : pystr) (w : World),
    files w file_path = inr nan_file ->
    quiet 3 (faults w) ->
    clean (File.upto 1024 (File.text_of nan_file)) = dq "{'x': null, 'y': 2}"
    /\ tier1_keys (File.upto 1024 (File.text_of nan_file)) 5 = [lit "x"; lit "y"]
    /\ tier1 file_path 5 w
       = (inr (lit "JSON object with keys including: x, y"),
          record [Open file_path false; Read 1024%Z; Close] w)
    /\ analyze_json_structure file_path 5 w
       = (inr (lit "JSON object with keys including: x, y"),
          record [Open file_path false; Read 1024%Z; Close] w).
Proof.
  intros file_path w Hf Hq.
  assert (tier1 file_path 5 w
          = (inr (lit "JSON object with keys including: x, y"),
             record [Open file_path false; Read 1024%Z; Close] w)) as H1.
  { rewrite (tier1_quiet file_path 5 nan_file w Hf Hq). f_equal. }
  repeat split.
  - exact H1.
  - unfold analyze_json_structure, try_except. rewrite H1. reflexivity.
Qed.

Lemma nan_file_fast_path_witness :
  analyze_json_structure (lit "x.json") 5 (one_file (lit "x.json") nan_file [])
  = (inr (lit "JSON object with keys including: x, y"),
     record [Open (lit "x.json") false; Read 1024%Z; Close]
            (one_file (lit "x.json") nan_file [])).
Proof.
  apply (nan_file_fast_path (lit "x.json")
           (one_file (lit "x.json") nan_file [])).
  - reflexivity.
  - apply quiet_nil.
Defined.

(** ** A parse failure in the second attempt *)

Lemma tier3_result path w d w' :
  tier3 path w = (inr d, w') -> exists b, d = tier3_describe b.
Proof.
  unfold tier3, File.with_open, File.open, File.read_bytes, File.close, bind,
    ask, ret, raise.
  change (File.fits_ssize_t 1) with true. cbv iota.
  destruct (sys (Open path true) w) as [[e | u] w1]; [discriminate|].
  destruct (files w1 path) as [msg | bytes]; [discriminate|].
  destruct (sys (Read 1) w1) as [[e | u'] w2];
    destruct (sys Close w2) as [[e' | u''] w3]; try discriminate.
  intros H. injection H as <- _. eauto.
Qed.

Lemma tier3_describe_not_not_parsed b : tier3_describe b <> not_parsed.
Proof.
  unfold tier3_describe.
  destruct (str_eqb _ _); [|destruct (str_eqb _ _)]; discriminate.
Qed.

(** ** The length of the preview *)





Lemma fits_ssize_t_iff size :
  File.fits_ssize_t size = true <-> (- 2 ^ 63 <= size < 2 ^ 63)%Z.
Proof.
  unfold File.fits_ssize_t. rewrite andb_true_iff, Z.leb_le, Z.ltb_lt.
  reflexivity.
Qed.

(** A size that [read] refuses: the file is opened and closed, nothing
    is read, and the error of the conversion comes out. *)
Lemma read_preview_refused path max_bytes bytes w :
  files w path = inr bytes ->
  quiet 3 (faults w) ->
  File.fits_ssize_t max_bytes = false ->
  read_preview path max_bytes w
  = (inl (Exn OverflowError File.not_index_sized),
     record [Stat path; Open path false; Close] w).
Proof.
  intros Hf Hq Hfit.
  unfold read_preview, File.getsize, File.with_open, File.open, File.read,
    File.close, bind, ask, sys, ret, raise, record.
  rewrite Hfit.
  destruct w as [fs fl tr rl md]. simpl in *.
  quiet3 Hq fl; simpl; repeat (rewrite Hf; simpl);
    rewrite <- ?app_assoc; reflexivity.
Qed.




(** ** The size in a unit *)

Section FormatFileSize.

Local Open Scope Z_scope.

Lemma round53_small n : Z.abs n < 2 ^ 53 -> round53 n = n.
Proof.
  intros H. unfold round53.
  destruct (Z.ltb_spec (Z.abs n) (2 ^ 53)); [reflexivity | lia].
Qed.

Lemma round53_large n : 2 ^ 53 <= n -> 2 ^ 53 <= round53 n <= 2 * n.
Proof.
  intros H. unfold round53.
  rewrite Z.abs_eq by lia.
  destruct (Z.ltb_spec n (2 ^ 53)) as [Hlt | _]; [lia|].
  assert (Hpos : 0 < n) by lia.
  pose proof (Z.log2_spec n Hpos) as [Hlo Hhi].
  assert (Hlog : 53 <= Z.log2 n) by (apply Z.log2_le_pow2; lia).
  set (e := Z.log2 n - 52) in *.
  assert (He : 1 <= e) by (unfold e; lia).
  replace (Z.log2 n) with (52 + e) in Hlo by (unfold e; lia).
  replace (Z.succ (Z.log2 n)) with (53 + e) in Hhi by (unfold e; lia).
  rewrite Z.pow_add_r in Hlo, Hhi by lia.
  assert (HP : 0 < 2 ^ e) by (apply Z.pow_pos_nonneg; lia).
  set (P := 2 ^ e) in *.
  pose proof (Z.div_mod n P ltac:(lia)) as Hdm.
  pose proof (Z.mod_pos_bound n P HP) as Hm.
  set (q := n / P) in *. set (r := n mod P) in *.
  assert (Hq : 2 ^ 52 <= q) by nia.
  rewrite Z.sgn_pos by lia.
  assert (HP2 : 2 <= P).
  { unfold P. replace 2 with (2 ^ 1) at 1 by reflexivity.
    apply Z.pow_le_mono_r; lia. }
  destruct (r <? 2 ^ (e - 1)); [nia|].
  destruct (2 ^ (e - 1) <? r); [nia|].
  destruct (Z.even q); nia.
Qed.









Example format_file_size_1536 :
  format_file_size 1536 = inr (Some (lit "1.50 KB")).
Proof. reflexivity. Qed.

Example format_file_size_terminal :
  format_file_size 5000000000000 = inr (Some (lit "4656.61 GB")).
Proof. reflexivity. Qed.

End FormatFileSize.

(** ** The keys that are listed *)

Lemma str_eqb_eq a b : str_eqb a b = true <-> a = b.
Proof.
  revert b. induction a as [|x a IH]; intros [|y b]; simpl;
    try (split; [discriminate | discriminate]); [tauto|].
  unfold char_eqb. rewrite andb_true_iff, N.eqb_eq, IH.
  split; [intros [-> ->]; reflexivity | intros H; injection H; auto].
Qed.

Lemma str_eqb_refl a : str_eqb a a = true.
Proof. apply str_eqb_eq. reflexivity. Qed.

Lemma str_in_In key l : str_in key l = true <-> In key l.
Proof.
  unfold str_in. rewrite existsb_exists. split.
  - intros (k & Hin & Heq). apply str_eqb_eq in Heq. subst. exact Hin.
  - intros Hin. exists key. split; [exact Hin | apply str_eqb_refl].
Qed.

Lemma str_in_app key l1 l2 :
  str_in key (l1 ++ l2) = str_in key l1 || str_in key l2.
Proof. unfold str_in. apply existsb_app. Qed.

Lemma filter_filter_comm {A} (p q : A -> bool) l :
  filter p (filter q l) = filter q (filter p l).
Proof.
  induction l as [|x l IH]; simpl; [reflexivity|].
  destruct (p x) eqn:Hp, (q x) eqn:Hq; simpl; rewrite ?Hp, ?Hq, IH;
    reflexivity.
Qed.

Lemma filter_implied {A} (p q : A -> bool) l :
  (forall x, p x = true -> q x = true) ->
  filter p (filter q l) = filter p l.
Proof.
  intros H. induction l as [|x l IH]; simpl; [reflexivity|].
  destruct (q x) eqn:Hq; simpl.
  - rewrite IH. reflexivity.
  - destruct (p x) eqn:Hp; [|exact IH].
    apply H in Hp. congruence.
Qed.

Lemma first_seen_filter (p : pystr -> bool) keys :
  first_seen (filter p keys) = filter p (first_seen keys).
Proof.
  induction keys as [|key keys IH]; simpl; [reflexivity|].
  destruct (p key) eqn:Hp; simpl.
  - rewrite ?Hp, IH. f_equal. apply filter_filter_comm.
  - rewrite IH. symmetry. apply filter_implied.
    intros k Hk. destruct (str_eqb key k) eqn:E; [|reflexivity].
    apply str_eqb_eq in E. congruence.
Qed.

Lemma first_seen_NoDup keys : NoDup (first_seen keys).
Proof.
  induction keys as [|key keys IH]; simpl; constructor.
  - rewrite filter_In. intros [_ H]. rewrite str_eqb_refl in H. discriminate.
  - apply NoDup_filter. exact IH.
Qed.

(** The elements of [first_seen keys] are those of [keys]. *)
Lemma first_seen_In keys k : In k (first_seen keys) <-> In k keys.
Proof.
  induction keys as [|key keys IH]; simpl; [tauto|].
  rewrite filter_In, IH. split.
  - intros [H | [H _]]; auto.
  - intros [H | H]; [auto|].
    destruct (str_eqb key k) eqn:E.
    + left. apply str_eqb_eq. exact E.
    + right. auto.
Qed.

Lemma str_eqb_sym a b : str_eqb a b = str_eqb b a.
Proof.
  destruct (str_eqb a b) eqn:E1, (str_eqb b a) eqn:E2; try reflexivity.
  - apply str_eqb_eq in E1. subst. rewrite str_eqb_refl in E2. discriminate.
  - apply str_eqb_eq in E2. subst. rewrite str_eqb_refl in E1. discriminate.
Qed.

Lemma filter_filter_and {A} (p q : A -> bool) l :
  filter p (filter q l) = filter (fun x => q x && p x) l.
Proof.
  induction l as [|x l IH]; simpl; [reflexivity|].
  destruct (q x); simpl; [destruct (p x)|]; rewrite IH; reflexivity.
Qed.

(** What the loop of lines 59-62 computes. *)
Lemma unique_keys_loop_spec keys : forall unique_keys max_items,
  unique_keys_loop keys unique_keys max_items
  = unique_keys
    ++ firstn (Z.to_nat max_items - length unique_keys)
         (first_seen (filter (fun k => negb (str_in k unique_keys)) keys)).
Proof.
  induction keys as [|key keys IH]; intros acc m; simpl.
  - rewrite firstn_nil, app_nil_r. reflexivity.
  - destruct (str_in key acc) eqn:Hin; simpl.
    + apply IH.
    + destruct (Z.ltb_spec (len acc) m) as [Hlt | Hge].
      * rewrite IH. rewrite <- app_assoc. f_equal.
        unfold len in Hlt. rewrite length_app. simpl.
        replace (Z.to_nat m - length acc)
          with (S (Z.to_nat m - (length acc + 1))) by lia.
        simpl. f_equal. f_equal.
        rewrite <- first_seen_filter. f_equal.
        rewrite filter_filter_and.
        apply filter_ext. intros k.
        rewrite str_in_app. simpl. rewrite orb_false_r, negb_orb.
        rewrite (str_eqb_sym k key). reflexivity.
      * rewrite IH. unfold len in Hge.
        replace (Z.to_nat m - length acc) with 0 by lia.
        reflexivity.
Qed.

Lemma filter_all {A} (l : list A) : filter (fun _ => true) l = l.
Proof. induction l as [|x l IH]; simpl; [|rewrite IH]; reflexivity. Qed.

Lemma tier1_keys_spec text max_items :
  tier1_keys text max_items
  = firstn (Z.to_nat max_items)
      (first_seen (Re.findall_keys (slice_to 1000 (clean text)))).
Proof.
  unfold tier1_keys. rewrite unique_keys_loop_spec. simpl.
  rewrite Nat.sub_0_r. f_equal. f_equal. apply filter_all.
Qed.

Lemma In_firstn {A} (x : A) n l : In x (firstn n l) -> In x l.
Proof.
  revert n. induction l as [|y l IH]; intros [|n]; simpl; try tauto.
  intros [H | H]; [auto | right; eapply IH; eauto].
Qed.

Lemma NoDup_firstn {A} n (l : list A) : NoDup l -> NoDup (firstn n l).
Proof.
  revert n. induction l as [|x l IH]; intros n H.
  - rewrite firstn_nil. constructor.
  - destruct n as [|n]; simpl; [constructor|].
    inversion H; subst. constructor.
    + intros Hin. apply In_firstn in Hin. contradiction.
    + apply IH. assumption.
Qed.

(** ** The keys of a [dict] *)

Lemma dict_keys_setitem {V} (d : list (pystr * V)) key v :
  Json.dict_keys (Json.dict_setitem d key v)
  = if str_in key (Json.dict_keys d) then Json.dict_keys d
    else Json.dict_keys d ++ [key].
Proof.
  unfold Json.dict_keys, str_in.
  induction d as [|[k v'] d IH]; simpl; [reflexivity|].
  rewrite (str_eqb_sym key k).
  destruct (str_eqb k key) eqn:E; simpl; [reflexivity|].
  rewrite IH. destruct (existsb _ _); reflexivity.
Qed.

Lemma dict_setitem_NoDup {V} (d : list (pystr * V)) key v :
  NoDup (Json.dict_keys d) -> NoDup (Json.dict_keys (Json.dict_setitem d key v)).
Proof.
  intros H. rewrite dict_keys_setitem.
  destruct (str_in key (Json.dict_keys d)) eqn:E; [exact H|].
  apply NoDup_app; [exact H | repeat constructor; intros [] |].
  intros k Hk [<- | []]. apply str_in_In in Hk. congruence.
Qed.

Lemma object_loop_keys scan n : forall s rval v rest,
  NoDup (Json.dict_keys rval) ->
  Json.object_loop scan n s rval = inr (v, rest) ->
  exists members, v = Json.Object members /\ NoDup (Json.dict_keys members).
Proof.
  induction n as [|n IH]; intros s rval v rest Hnd; simpl; [discriminate|].
  destruct s as [|q s1]; [discriminate|].
  destruct (char_eqb q dquote); [|discriminate].
  destruct (Json.scanstring s1) as [e | [key s2]]; [discriminate|].
  destruct (Json.skip_whitespace s2) as [|colon s3]; [discriminate|].
  destruct (char_eqb colon 58%N); [|discriminate].
  destruct (scan (Json.skip_whitespace s3)) as [e | [val s4]]; [discriminate|].
  destruct (Json.skip_whitespace s4) as [|d s5]; [discriminate|].
  pose proof (dict_setitem_NoDup rval key val Hnd) as Hnd'.
  destruct (char_eqb d 125%N).
  - intros H. injection H as <- _. eauto.
  - destruct (char_eqb d 44%N); [|discriminate].
    apply IH. exact Hnd'.
Qed.

Lemma array_loop_not_object scan n : forall s rval members rest,
  Json.array_loop scan n s rval <> inr (Json.Object members, rest).
Proof.
  induction n as [|n IH]; intros s rval members rest; simpl; [discriminate|].
  destruct (scan s) as [e | [val s1]]; [discriminate|].
  destruct (Json.skip_whitespace s1) as [|d s2]; [discriminate|].
  destruct (char_eqb d 93%N); [discriminate|].
  destruct (char_eqb d 44%N); [apply IH | discriminate].
Qed.

Lemma constant_not_object name v s members rest :
  (forall m, v <> Json.Object m) ->
  Json.constant name v s <> Some (Json.Object members, rest).
Proof.
  intros Hv. unfold Json.constant.
  destruct (startswith _ _); [|discriminate].
  intros H. injection H as H _. apply (Hv members). exact H.
Qed.

Lemma match_constant_not_object s members rest :
  Json.match_constant s <> Some (Json.Object members, rest).
Proof.
  unfold Json.match_constant.
  repeat match goal with
         | |- context [Json.constant ?name ?v s] =>
             let E := fresh "E" in
             destruct (Json.constant name v s) as [[v' r']|] eqn:E;
             [intros H; rewrite H in E;
              apply constant_not_object in E; [exact E | discriminate]|]
         end.
  discriminate.
Qed.

(** The keys of an object that [scan_once] has read are distinct. *)
Lemma scan_once_object_keys max_digits depth s members rest :
  Json.scan_once max_digits depth s = inr (Json.Object members, rest) ->
  NoDup (Json.dict_keys members).
Proof.
  destruct depth as [|depth], s as [|c s']; cbn [Json.scan_once];
    try discriminate.
  - destruct (char_eqb c dquote).
    { destruct (Json.scanstring s') as [e | [str r]]; discriminate. }
    destruct (char_eqb c 123%N); [discriminate|].
    destruct (char_eqb c 91%N); [discriminate|].
    destruct (Json.match_constant (c :: s')) as [r|] eqn:E.
    { intros H. injection H as ->. apply match_constant_not_object in E.
      contradiction. }
    destruct (Json.match_number (c :: s')) as [[[lx fl] r]|]; [|discriminate].
    unfold Json.number. destruct (_ && _); discriminate.
  - destruct (char_eqb c dquote).
    { destruct (Json.scanstring s') as [e | [str r]]; discriminate. }
    destruct (char_eqb c 123%N).
    { destruct (Json.skip_whitespace s') as [|c0 rest0]; [discriminate|].
      destruct (char_eqb c0 125%N).
      - intros H. injection H as <- _. constructor.
      - intros H. apply object_loop_keys in H; [|constructor].
        destruct H as (m & Hm & Hnd). injection Hm as ->. exact Hnd. }
    destruct (char_eqb c 91%N).
    { destruct (Json.skip_whitespace s') as [|c0 rest0]; [discriminate|].
      destruct (char_eqb c0 93%N); [discriminate|].
      intros H. apply array_loop_not_object in H. contradiction. }
    destruct (Json.match_constant (c :: s')) as [r|] eqn:E.
    { intros H. injection H as ->. apply match_constant_not_object in E.
      contradiction. }
    destruct (Json.match_number (c :: s')) as [[[lx fl] r]|]; [|discriminate].
    unfold Json.number. destruct (_ && _); discriminate.
Qed.

Lemma loads_object_keys max_digits depth s members :
  Json.loads max_digits depth s = inr (Json.Object members) ->
  NoDup (Json.dict_keys members).
Proof.
  unfold Json.loads. destruct (startswith _ s); [discriminate|].
  destruct (Json.scan_once _ _ _) as [e | [obj rest]] eqn:E; [discriminate|].
  destruct (Json.skip_whitespace rest); [|discriminate].
  intros H. injection H as ->. eapply scan_once_object_keys. exact E.
Qed.

Lemma tier1_result path max_items w d w' :
  tier1 path max_items w = (inr d, w') ->
  exists text, d = tier1_describe text max_items.
Proof.
  unfold tier1, File.with_open, File.open, File.read, File.close, bind, ask,
    ret, raise.
  change (File.fits_ssize_t 1024) with true. cbv iota.
  destruct (sys (Open path false) w) as [[e | u] w1]; [discriminate|].
  destruct (files w1 path) as [msg | bytes]; [discriminate|].
  destruct (sys (Read 1024) w1) as [[e | u'] w2];
    destruct (sys Close w2) as [[e' | u''] w3]; try discriminate.
  intros H. injection H as <- _. eauto.
Qed.

Lemma tier2_result path max_items w d w' :
  tier2 path max_items w = (inr d, w') ->
  exists max_digits depth content,
    tier2_describe max_digits depth content max_items = inr d.
Proof.
  unfold tier2, File.with_open, File.open, File.read, File.close, bind, ask,
    ret, raise, lift.
  change (File.fits_ssize_t 10240) with true. cbv iota.
  destruct (sys (Open path false) w) as [[e | u] w1]; [discriminate|].
  destruct (files w1 path) as [msg | bytes]; [discriminate|].
  destruct (sys (Read 10240) w1) as [[e | u'] w2].
  - destruct (sys Close w2) as [[e' | u''] w3]; discriminate.
  - destruct (tier2_describe _ _ _ _) as [e | d2] eqn:E;
      destruct (sys Close w2) as [[e' | u''] w3]; try discriminate.
    intros H. injection H as <- _. eauto.
Qed.

(** Where a description that the analyzer returns comes from. *)
Lemma analyze_json_structure_result path max_items w d w' :
  analyze_json_structure path max_items w = (inr d, w') ->
  (exists text, d = tier1_describe text max_items)
  \/ (exists max_digits depth content,
        tier2_describe max_digits depth content max_items = inr d)
  \/ (exists b, d = tier3_describe b)
  \/ (exists e, d = lit "Could not analyze structure: " ++ str_exn e).
Proof.
  unfold analyze_json_structure, try_except.
  destruct (tier1 path max_items w) as [[e1 | d1] w1] eqn:E1.
  - destruct (tier2 path max_items w1) as [[e2 | d2] w2] eqn:E2.
    + destruct (tier3 path w2) as [[e3 | d3] w3] eqn:E3.
      * unfold ret. intros H. injection H as <- _. right. right. right.
        exists e1. reflexivity.
      * intros H. injection H as <- _. right. right. left.
        eapply tier3_result. exact E3.
    + intros H. injection H as <- _. right. left.
      eapply tier2_result. exact E2.
  - intros H. injection H as <- _. left. eapply tier1_result. exact E1.
Qed.

Lemma slice_to_nonneg {A} n (l : list A) :
  (0 <= n)%Z -> slice_to n l = firstn (Z.to_nat n) l.
Proof.
  intros H. unfold slice_to.
  destruct (Z.ltb_spec n 0); [lia | reflexivity].
Qed.

Lemma firstn_len {A} n (l : list A) :
  (0 <= n)%Z -> len (firstn (Z.to_nat n) l) = Z.min n (len l).
Proof. intros H. unfold len. rewrite length_firstn. lia. Qed.

(** C4, as the code has it: the keys that a description lists are
    distinct and in the order in which they are first seen, and there
    are as many of them as the cap allows: the smaller of the cap and
    of the number of distinct keys that are there to list.  In the
    first attempt the keys to list are the matches of the pattern in
    the first 1000 characters of the cleaned text; in the second, the
    keys of the object parsed.  So a file with more than five distinct
    keys gets five of them listed when five are matched within the
    first 1000 characters, and fewer otherwise. *)
Theorem listed_keys_invariant :
  forall max_items : Z,
    (0 <= max_items)%Z ->
    (forall text,
        NoDup (tier1_keys text max_items)
        /\ tier1_keys text max_items
           = firstn (Z.to_nat max_items)
               (first_seen (Re.findall_keys (slice_to 1000 (clean text))))
        /\ len (tier1_keys text max_items)
           = Z.min max_items
               (len (first_seen (Re.findall_keys (slice_to 1000 (clean text)))))
        /\ (tier1_describe text max_items
            = keys_description (tier1_keys text max_items)
            \/ In (tier1_describe text max_items)
                  [lit "JSON object (dictionary)"; lit "JSON array (list)";
                   lit "Unknown JSON structure"]))
    /\ (forall max_digits depth content d,
          tier2_describe max_digits depth content max_items = inr d ->
          d = not_parsed
          \/ exists members,
               Json.loads max_digits depth
                 (slice_to (find_end_pos (clean content) 0 0) (clean content))
               = inr (Json.Object members)
               /\ NoDup (Json.dict_keys members)
               /\ d = keys_description
                        (firstn (Z.to_nat max_items) (Json.dict_keys members))
               /\ NoDup (firstn (Z.to_nat max_items) (Json.dict_keys members))
               /\ len (firstn (Z.to_nat max_items) (Json.dict_keys members))
                  = Z.min max_items (len (Json.dict_keys members)))
    /\ (forall path w d w',
          analyze_json_structure path max_items w = (inr d, w') ->
          (exists text, d = tier1_describe text max_items)
          \/ (exists max_digits depth content,
                tier2_describe max_digits depth content max_items = inr d)
          \/ (exists b, d = tier3_describe b)
          \/ (exists e, d = lit "Could not analyze structure: " ++ str_exn e)).
Proof.
  intros max_items Hm. split; [|split].
  - intros text. pose proof (tier1_keys_spec text max_items) as Hk.
    split; [|split; [exact Hk | split]].
    + rewrite Hk. apply NoDup_firstn, first_seen_NoDup.
    + rewrite Hk. apply firstn_len. exact Hm.
    + unfold tier1_describe, tier1_keys.
      destruct (startswith (lit "{") _).
      * destruct (Re.findall_keys _); [right; simpl; auto | left; reflexivity].
      * destruct (startswith (lit "[") _); right; simpl; auto.
  - intros max_digits depth content d. unfold tier2_describe.
    destruct (startswith (lit "{") _); [|intros H; injection H as <-; auto].
    destruct (0 <? _)%Z; [|intros H; injection H as <-; auto].
    destruct (Json.loads _ _ _) as [e | first_obj] eqn:El; [discriminate|].
    destruct first_obj; try discriminate.
    simpl. intros H. injection H as <-. right. exists members.
    pose proof (loads_object_keys _ _ _ _ El) as Hnd.
    rewrite slice_to_nonneg by exact Hm.
    repeat split; auto.
    + apply NoDup_firstn. exact Hnd.
    + apply firstn_len. exact Hm.
  - intros path w d w'. apply analyze_json_structure_result.
Qed.

Lemma listed_keys_invariant_witness :
  NoDup (tier1_keys (dq "{'a': 1, 'b': {'a': 2}, 'c': 3}") 2)
  /\ tier1_keys (dq "{'a': 1, 'b': {'a': 2}, 'c': 3}") 2 = [lit "a"; lit "b"].
Proof.
  destruct (proj1 (listed_keys_invariant 2 ltac:(lia))
              (dq "{'a': 1, 'b': {'a': 2}, 'c': 3}")) as (H1 & H2 & _).
  split; [exact H1 | reflexivity].
Defined.

(** C4, as it is stated, fails in its last part: [six_keys_file] is an
    object of six distinct keys, and one key is listed for it, the only
    one that the first 1000 characters have. *)
Lemma exactly_five_counterexample :
  (exists members,
     Json.loads 4300 1000 six_keys_text = inr (Json.Object members)
     /\ Json.dict_keys members
        = [lit "a"; lit "b"; lit "c"; lit "d"; lit "e"; lit "f"])
  /\ File.text_of six_keys_file = six_keys_text
  /\ tier1_keys (File.upto 1024 (File.text_of six_keys_file)) 5 = [lit "a"]
  /\ fst (analyze_json_structure (lit "k.json") 5
            (one_file (lit "k.json") six_keys_file []))
     = inr (lit "JSON object with keys including: a").
Proof.
  split; [|split; [|split]].
  - eexists. split; vm_compute; reflexivity.
  - vm_compute. reflexivity.
  - vm_compute. reflexivity.
  - vm_compute. reflexivity.
Qed.

(** ** The UTF-8 codec *)

Section Utf8Facts.
Local Open Scope N_scope.


Lemma to_N_byte_of_N n : n < 256 -> Byte.to_N (Utf8.byte_of_N n) = n.
Proof.
  intros H. unfold Utf8.byte_of_N.
  destruct (Byte.of_N n) as [b|] eqn:E.
  - apply Byte.to_of_N. exact E.
  - apply Byte.of_N_None_iff in E. lia.
Qed.


Ltac bool_cases :=
  repeat match goal with
         | H : (_ <? _) = true |- _ => apply N.ltb_lt in H
         | H : (_ <? _) = false |- _ => apply N.ltb_ge in H
         | H : (_ <=? _) = true |- _ => apply N.leb_le in H
         | H : (_ <=? _) = false |- _ => apply N.leb_gt in H
         | H : (_ =? _) = true |- _ => apply N.eqb_eq in H
         | H : (_ =? _) = false |- _ => apply N.eqb_neq in H
         | H : _ && _ = true |- _ => apply andb_true_iff in H; destruct H
         | H : _ && _ = false |- _ => apply andb_false_iff in H
         | H : _ || _ = false |- _ => apply orb_false_iff in H; destruct H
         | H : _ || _ = true |- _ => apply orb_true_iff in H
         | H : negb _ = true |- _ => apply negb_true_iff in H
         | H : negb _ = false |- _ => apply negb_false_iff in H
         | H : (if ?c then _ else _) = _ |- _ => destruct c eqn:?
         | H : _ \/ _ |- _ => destruct H
         end.

(** Quotient and remainder of [x] by [d], as variables that [lia] can
    use. *)
Ltac divmod x d :=
  let H1 := fresh "Hdm" in let H2 := fresh "Hdm" in
  let q := fresh "q" in let r := fresh "r" in
  pose proof (N.div_mod x d ltac:(discriminate)) as H1;
  pose proof (N.mod_lt x d ltac:(discriminate)) as H2;
  set (q := x / d) in *; set (r := x mod d) in *;
  clearbody q r.















Lemma scalar_value_range c :
  Utf8.scalar_value c = true -> c < 0xD800 \/ 0xE000 <= c < 0x110000.
Proof.
  unfold Utf8.scalar_value. intros H.
  apply orb_true_iff in H. destruct H as [H | H]; bool_cases; lia.
Qed.

(** Decoding the encoding of a character gives it back. *)
Lemma decode_encode_char c rest :
  Utf8.scalar_value c = true ->
  Utf8.decode_ignore (Utf8.encode_char c ++ rest)
  = c :: Utf8.decode_ignore rest.
Proof.
  intros Hs. apply scalar_value_range in Hs.
  unfold Utf8.encode_char.
  destruct (N.ltb_spec c 0x80); [|destruct (N.ltb_spec c 0x800);
                                   [|destruct (N.ltb_spec c 0x10000)]].
  - cbn [app Utf8.decode_ignore]. rewrite to_N_byte_of_N by lia.
    destruct (N.ltb_spec c 0x80); [reflexivity | lia].
  - divmod c 64.
    cbn [app Utf8.decode_ignore]. rewrite !to_N_byte_of_N by lia.
    unfold Utf8.is_continuation.
    repeat match goal with
           | |- context [if ?c then _ else _] =>
               destruct c eqn:?; bool_cases; try lia
           end;
      f_equal; lia.
  - divmod c 4096. divmod c 64. divmod q0 64.
    cbn [app Utf8.decode_ignore]. rewrite !to_N_byte_of_N by lia.
    unfold Utf8.is_continuation.
    repeat match goal with
           | |- context [if ?c then _ else _] =>
               destruct c eqn:?; bool_cases; try lia
           end;
      f_equal; lia.
  - divmod c 262144. divmod c 4096. divmod q0 64. divmod c 64. divmod q2 64.
    cbn [app Utf8.decode_ignore]. rewrite !to_N_byte_of_N by lia.
    unfold Utf8.is_continuation.
    repeat match goal with
           | |- context [if ?c then _ else _] =>
               destruct c eqn:?; bool_cases; try lia
           end;
      f_equal; lia.
Qed.

Lemma decode_encode s rest :
  Forall (fun c => Utf8.scalar_value c = true) s ->
  Utf8.decode_ignore (Utf8.encode s ++ rest) = s ++ Utf8.decode_ignore rest.
Proof.
  induction 1 as [|c s Hc Hs IH]; [reflexivity|].
  unfold Utf8.encode in *. simpl. rewrite <- app_assoc.
  rewrite decode_encode_char by exact Hc. rewrite IH. reflexivity.
Qed.



End Utf8Facts.


(** ** [NaN] in the names of keys *)

Section NaNKeys.

Lemma replace_from_skip old new : forall s k,
  replace_from old new k s = replace_from old new 0 (skipn k s).
Proof.
  induction s as [|c s IH]; intros [|k]; simpl; try reflexivity.
  apply IH.
Qed.

Lemma startswith_NaN s :
  startswith (lit "NaN") s = true <->
  exists rest, s = 78%N :: 97%N :: 78%N :: rest.
Proof.
  change (lit "NaN") with [78%N; 97%N; 78%N].
  split.
  - destruct s as [|c1 [|c2 [|c3 rest]]]; cbn [startswith]; unfold char_eqb;
      rewrite ?andb_false_r; try discriminate.
    rewrite !andb_true_iff. intros (H1 & H2 & H3 & _).
    apply N.eqb_eq in H1, H2, H3. subst. eauto.
  - intros [rest ->]. reflexivity.
Qed.

Lemma clean_nil : clean [] = [].
Proof. reflexivity. Qed.

Lemma clean_NaN rest :
  clean (78%N :: 97%N :: 78%N :: rest) = lit "null" ++ clean rest.
Proof. reflexivity. Qed.

Lemma clean_other c rest :
  startswith (lit "NaN") (c :: rest) = false ->
  clean (c :: rest) = c :: clean rest.
Proof.
  intros H. unfold clean, replace. cbn [replace_from]. rewrite H. reflexivity.
Qed.

Lemma findall_from_skip : forall s k,
  Re.findall_from k s = Re.findall_keys (skipn k s).
Proof.
  induction s as [|c s IH]; intros [|k]; try reflexivity.
  simpl. apply IH.
Qed.

Lemma findall_keys_cons c rest :
  Re.findall_keys (c :: rest)
  = match Re.match_key (c :: rest) with
    | Some (key, n) => key :: Re.findall_keys (skipn (n - 1) rest)
    | None => Re.findall_keys rest
    end.
Proof.
  unfold Re.findall_keys at 1. cbn [Re.findall_from].
  destruct (Re.match_key (c :: rest)) as [[key n]|]; [|reflexivity].
  rewrite findall_from_skip. reflexivity.
Qed.

Lemma findall_keys_other c rest :
  c <> dquote -> Re.findall_keys (c :: rest) = Re.findall_keys rest.
Proof.
  intros H. rewrite findall_keys_cons. unfold Re.match_key, char_eqb.
  destruct (N.eqb_spec c dquote); [contradiction | reflexivity].
Qed.


(** [span_not_dquote] splits a text at its first double quote. *)
Lemma span_not_dquote_spec s :
  let '(key, tail) := Re.span_not_dquote s in
  s = key ++ tail /\ no_dquote key
  /\ (tail = [] \/ exists after, tail = dquote :: after).
Proof.
  induction s as [|c s IH]; simpl.
  - repeat split; [constructor | left; reflexivity].
  - unfold char_eqb. destruct (N.eqb_spec c dquote) as [-> | Hc].
    + repeat split; [constructor | right; eauto].
    + destruct (Re.span_not_dquote s) as [key tail].
      destruct IH as (-> & Hk & Ht).
      repeat split; [constructor; assumption | exact Ht].
Qed.

Lemma span_not_dquote_app key after :
  no_dquote key ->
  Re.span_not_dquote (key ++ dquote :: after) = (key, dquote :: after).
Proof.
  induction 1 as [|c key Hc Hk IH]; simpl.
  - reflexivity.
  - unfold char_eqb. destruct (N.eqb_spec c dquote); [contradiction|].
    rewrite IH. reflexivity.
Qed.

Lemma span_not_dquote_all key :
  no_dquote key -> Re.span_not_dquote key = (key, []).
Proof.
  induction 1 as [|c key Hc Hk IH]; simpl.
  - reflexivity.
  - unfold char_eqb. destruct (N.eqb_spec c dquote); [contradiction|].
    rewrite IH. reflexivity.
Qed.

(** Whether a text starts with [NaN] is settled before its first double
    quote. *)
Lemma startswith_NaN_app_dquote key after :
  startswith (lit "NaN") (key ++ dquote :: after)
  = startswith (lit "NaN") key.
Proof.
  change (lit "NaN") with [78%N; 97%N; 78%N].
  destruct key as [|c1 [|c2 [|c3 key]]]; cbn [startswith app];
    unfold char_eqb; reflexivity.
Qed.

Lemma clean_app_dquote_fuel n : forall key after,
  length key <= n ->
  clean (key ++ dquote :: after) = clean key ++ dquote :: clean after.
Proof.
  induction n as [|n IH]; intros key after Hn.
  - destruct key; [|simpl in Hn; lia]. reflexivity.
  - destruct key as [|c key]; [reflexivity|].
    destruct (startswith (lit "NaN") (c :: key)) eqn:E.
    + apply startswith_NaN in E. destruct E as [k E]. injection E as -> ->.
      change ((78%N :: 97%N :: 78%N :: k) ++ dquote :: after)
        with (78%N :: 97%N :: 78%N :: (k ++ dquote :: after)).
      rewrite !clean_NaN. rewrite IH by (cbn [length] in Hn; lia).
      rewrite <- app_assoc. reflexivity.
    + rewrite <- app_comm_cons. rewrite clean_other.
      * rewrite (clean_other _ _ E). rewrite IH by (simpl in Hn; lia).
        reflexivity.
      * rewrite app_comm_cons, startswith_NaN_app_dquote. exact E.
Qed.

Lemma clean_app_dquote key after :
  clean (key ++ dquote :: after) = clean key ++ dquote :: clean after.
Proof. eapply clean_app_dquote_fuel. reflexivity. Qed.

Lemma clean_no_dquote_fuel n : forall key,
  length key <= n -> no_dquote key -> no_dquote (clean key).
Proof.
  induction n as [|n IH]; intros key Hn Hk.
  - destruct key; [constructor | simpl in Hn; lia].
  - destruct key as [|c key]; [constructor|].
    destruct (startswith (lit "NaN") (c :: key)) eqn:E.
    + apply startswith_NaN in E. destruct E as [k E]. injection E as -> ->.
      rewrite clean_NaN.
      repeat (constructor; [discriminate|]).
      apply IH; [simpl in Hn; lia|].
      inversion Hk as [|? ? _ Hk1]. inversion Hk1 as [|? ? _ Hk2].
      inversion Hk2. assumption.
    + rewrite (clean_other _ _ E). inversion Hk; subst.
      constructor; [assumption|]. apply IH; [simpl in Hn; lia | assumption].
Qed.

Lemma clean_nonempty c key : clean (c :: key) <> [].
Proof.
  destruct (startswith (lit "NaN") (c :: key)) eqn:E.
  - apply startswith_NaN in E. destruct E as [k E]. injection E as -> ->.
    rewrite clean_NaN. discriminate.
  - rewrite (clean_other _ _ E). discriminate.
Qed.


Lemma clean_no_dquote key : no_dquote key -> no_dquote (clean key).
Proof. eapply clean_no_dquote_fuel. reflexivity. Qed.

Lemma lookahead_colon_clean s :
  Re.lookahead_colon (clean s) = Re.lookahead_colon s.
Proof.
  induction s as [|c s IH]; [reflexivity|].
  destruct (startswith (lit "NaN") (c :: s)) eqn:E.
  - apply startswith_NaN in E. destruct E as [k E]. injection E as -> ->.
    rewrite clean_NaN. reflexivity.
  - rewrite (clean_other _ _ E). unfold Re.lookahead_colon in *.
    cbn [lstrip]. destruct (isspace c); [exact IH | reflexivity].
Qed.

Lemma match_key_dquote rest :
  Re.match_key (dquote :: rest)
  = match Re.span_not_dquote rest with
    | ((_ :: _) as key, _ :: after) =>
        if Re.lookahead_colon after then Some (key, length key + 2)
        else None
    | _ => None
    end.
Proof. reflexivity. Qed.

Lemma skipn_app_cons {A} (key : list A) x after :
  skipn (length key + 2 - 1) (key ++ x :: after) = after.
Proof.
  replace (length key + 2 - 1) with (length key + 1) by lia.
  rewrite skipn_app. rewrite skipn_all2 by lia.
  replace (length key + 1 - length key) with 1 by lia. reflexivity.
Qed.

Lemma match_key_unclosed key :
  no_dquote key -> Re.match_key (dquote :: key) = None.
Proof.
  intros H. rewrite match_key_dquote, (span_not_dquote_all _ H).
  destruct key; reflexivity.
Qed.

Lemma match_key_closed key after :
  no_dquote key ->
  Re.match_key (dquote :: key ++ dquote :: after)
  = match key with
    | [] => None
    | _ :: _ =>
        if Re.lookahead_colon after then Some (key, length key + 2) else None
    end.
Proof.
  intros H. rewrite match_key_dquote, (span_not_dquote_app _ _ H).
  destruct key; reflexivity.
Qed.

Lemma findall_keys_clean_fuel n : forall t,
  length t <= n ->
  Re.findall_keys (clean t) = map clean (Re.findall_keys t).
Proof.
  induction n as [|n IH]; intros t Hn.
  - destruct t; [reflexivity | simpl in Hn; lia].
  - destruct t as [|c rest]; [reflexivity|]. cbn [length] in Hn.
    destruct (startswith (lit "NaN") (c :: rest)) eqn:E.
    { apply startswith_NaN in E. destruct E as [k E]. injection E as -> ->.
      rewrite clean_NaN. change (lit "null" ++ clean k)
        with (110%N :: 117%N :: 108%N :: 108%N :: clean k).
      rewrite !findall_keys_other by discriminate.
      apply IH. cbn [length] in Hn. lia. }
    rewrite (clean_other _ _ E).
    destruct (N.eqb_spec c dquote) as [-> | Hc].
    2:{ rewrite !findall_keys_other by exact Hc. apply IH. lia. }
    rewrite !findall_keys_cons.
    pose proof (span_not_dquote_spec rest) as Hspan.
    destruct (Re.span_not_dquote rest) as [key tail].
    destruct Hspan as (Hrest & Hkey & [-> | [after ->]]).
    + rewrite app_nil_r in Hrest. subst rest.
      rewrite (match_key_unclosed _ Hkey).
      rewrite (match_key_unclosed _ (clean_no_dquote _ Hkey)).
      apply IH. lia.
    + subst rest. rewrite clean_app_dquote.
      rewrite (match_key_closed _ _ Hkey).
      rewrite (match_key_closed _ _ (clean_no_dquote _ Hkey)).
      rewrite lookahead_colon_clean.
      destruct key as [|c1 key].
      { rewrite <- clean_app_dquote. apply IH. lia. }
      destruct (clean (c1 :: key)) as [|c1' key'] eqn:Ec.
      { exfalso. eapply clean_nonempty. exact Ec. }
      rewrite <- Ec.
      destruct (Re.lookahead_colon after).
      * rewrite !skipn_app_cons. cbn [map]. f_equal.
        apply IH. rewrite length_app in Hn. cbn [length] in Hn. lia.
      * rewrite <- clean_app_dquote. apply IH. lia.
Qed.

(** The keys found in the cleaned text are the keys found in the text,
    cleaned. *)
Lemma findall_keys_clean t :
  Re.findall_keys (clean t) = map clean (Re.findall_keys t).
Proof. eapply findall_keys_clean_fuel. reflexivity. Qed.


(** *** The matches in the first characters of a text *)

Lemma findall_keys_no_dquote s : no_dquote s -> Re.findall_keys s = [].
Proof.
  induction 1 as [|c s Hc Hs IH]; [reflexivity|].
  rewrite findall_keys_other by exact Hc. exact IH.
Qed.

Lemma findall_keys_skip key s :
  no_dquote key -> Re.findall_keys (key ++ s) = Re.findall_keys s.
Proof.
  induction 1 as [|c key Hc Hk IH]; [reflexivity|].
  simpl. rewrite findall_keys_other by exact Hc. exact IH.
Qed.

Lemma isspace_not_dquote c : isspace c = true -> c <> dquote.
Proof. intros H ->. discriminate. Qed.

Lemma lstrip_nil_no_dquote s : lstrip s = [] -> no_dquote s.
Proof.
  unfold no_dquote. induction s as [|c s IH]; simpl; intros H.
  - constructor.
  - destruct (isspace c) eqn:E; [|discriminate].
    constructor; [apply isspace_not_dquote; exact E | auto].
Qed.

Lemma lstrip_app s s2 :
  lstrip s <> [] -> lstrip (s ++ s2) = lstrip s ++ s2.
Proof.
  induction s as [|c s IH]; simpl; [congruence|].
  destruct (isspace c); [exact IH | reflexivity].
Qed.

(** A lookahead that succeeds goes on succeeding when the text is
    extended; one that fails and then succeeds had white space only. *)
Lemma lookahead_colon_app after s2 :
  Re.lookahead_colon (after ++ s2) = Re.lookahead_colon after
  \/ lstrip after = [].
Proof.
  destruct (lstrip after) as [|x l] eqn:E; [right; reflexivity|]. left.
  unfold Re.lookahead_colon. rewrite lstrip_app by congruence.
  rewrite E. reflexivity.
Qed.

Lemma findall_keys_app_fuel n : forall s1 s2,
  length s1 <= n ->
  exists l, Re.findall_keys (s1 ++ s2) = Re.findall_keys s1 ++ l.
Proof.
  induction n as [|n IH]; intros s1 s2 Hn.
  - destruct s1; [|simpl in Hn; lia]. exists (Re.findall_keys s2). reflexivity.
  - destruct s1 as [|c r1]; [exists (Re.findall_keys s2); reflexivity|].
    cbn [length] in Hn. rewrite <- app_comm_cons.
    destruct (N.eqb_spec c dquote) as [-> | Hc].
    2:{ rewrite !findall_keys_other by exact Hc. apply IH. lia. }
    pose proof (span_not_dquote_spec r1) as Hspan.
    destruct (Re.span_not_dquote r1) as [key tail].
    destruct Hspan as (Hr1 & Hkey & [-> | [after ->]]).
    + rewrite app_nil_r in Hr1. subst r1.
      rewrite (findall_keys_cons dquote key), (match_key_unclosed _ Hkey).
      rewrite (findall_keys_no_dquote _ Hkey). simpl. eauto.
    + subst r1. rewrite <- app_assoc, <- app_comm_cons.
      rewrite !findall_keys_cons, !(match_key_closed _ _ Hkey).
      destruct key as [|c1 key].
      { simpl app. rewrite app_comm_cons. apply IH.
        cbn [length app] in *. lia. }
      destruct (lookahead_colon_app after s2) as [-> | Hsp].
      * destruct (Re.lookahead_colon after).
        -- rewrite !skipn_app_cons.
           destruct (IH after s2) as [l Hl].
           { rewrite length_app in Hn. cbn [length] in Hn. lia. }
           rewrite Hl. exists l. reflexivity.
        -- rewrite (app_comm_cons after s2 dquote), app_assoc.
           apply IH. lia.
      * assert (Re.lookahead_colon after = false) as ->.
        { unfold Re.lookahead_colon. rewrite Hsp. reflexivity. }
        rewrite (findall_keys_skip (c1 :: key) (dquote :: after) Hkey).
        rewrite (findall_keys_cons dquote after).
        pose proof (lstrip_nil_no_dquote _ Hsp) as Hafter.
        rewrite (match_key_unclosed _ Hafter).
        rewrite (findall_keys_no_dquote _ Hafter). simpl. eauto.
Qed.

(** A match in the first [n] characters is a match in the text. *)
Lemma findall_keys_firstn n s key :
  In key (Re.findall_keys (firstn n s)) -> In key (Re.findall_keys s).
Proof.
  intros H.
  destruct (findall_keys_app_fuel (length (firstn n s)) (firstn n s)
              (skipn n s) (le_n _)) as [l Hl].
  rewrite firstn_skipn in Hl. rewrite Hl. apply in_or_app. left. exact H.
Qed.

(** *** No [NaN] is left in a cleaned text *)

Lemma clean_length_ge_fuel n : forall s,
  length s <= n -> length s <= length (clean s).
Proof.
  induction n as [|n IH]; intros s Hn.
  - destruct s; [simpl; lia | simpl in Hn; lia].
  - destruct s as [|c s]; [simpl; lia|].
    destruct (startswith (lit "NaN") (c :: s)) eqn:E.
    + apply startswith_NaN in E. destruct E as [k E]. injection E as -> ->.
      rewrite clean_NaN. cbn [length] in Hn.
      pose proof (IH k ltac:(lia)). rewrite length_app. simpl. lia.
    + rewrite (clean_other _ _ E). cbn [length] in *.
      pose proof (IH s ltac:(lia)). lia.
Qed.

(** A text with [NaN] in it is not left as it is: it grows. *)
Lemma clean_changes a b :
  clean (a ++ lit "NaN" ++ b) <> a ++ lit "NaN" ++ b.
Proof.
  assert (length (a ++ lit "NaN" ++ b) < length (clean (a ++ lit "NaN" ++ b)))
    as H; [|intros E; rewrite E in H; lia].
  induction a as [|c a IH].
  - change ([] ++ lit "NaN" ++ b) with (78%N :: 97%N :: 78%N :: b).
    rewrite clean_NaN. rewrite length_app.
    pose proof (clean_length_ge_fuel (length b) b (le_n _)). simpl. lia.
  - rewrite <- app_comm_cons.
    destruct (startswith (lit "NaN") (c :: a ++ lit "NaN" ++ b)) eqn:E.
    + apply startswith_NaN in E. destruct E as [k E]. rewrite E.
      rewrite clean_NaN, length_app.
      pose proof (clean_length_ge_fuel (length k) k (le_n _)). simpl. lia.
    + rewrite (clean_other _ _ E). cbn [length]. lia.
Qed.


Lemma clean_head s x t :
  clean s = x :: t -> x <> 110%N ->
  exists s', s = x :: s' /\ clean s' = t.
Proof.
  destruct s as [|c s']; [discriminate|].
  destruct (startswith (lit "NaN") (c :: s')) eqn:E.
  - apply startswith_NaN in E. destruct E as [k E]. injection E as -> ->.
    rewrite clean_NaN. intros H Hx. injection H as H _. congruence.
  - rewrite (clean_other _ _ E). intros H _. injection H as -> <-. eauto.
Qed.

Lemma clean_has_no_NaN_fuel n : forall s a b,
  length s <= n -> clean s <> a ++ lit "NaN" ++ b.
Proof.
  change (lit "NaN") with [78%N; 97%N; 78%N].
  induction n as [|n IH]; intros s a b Hn.
  - destruct s; [|simpl in Hn; lia]. destruct a; discriminate.
  - destruct s as [|c s]; [destruct a; discriminate|].
    cbn [length] in Hn.
    destruct (startswith (lit "NaN") (c :: s)) eqn:E.
    + apply startswith_NaN in E. destruct E as [k E]. injection E as -> ->.
      rewrite clean_NaN. cbn [length] in Hn.
      change (lit "null" ++ clean k)
        with (110%N :: 117%N :: 108%N :: 108%N :: clean k).
      destruct a as [|x1 [|x2 [|x3 [|x4 a]]]]; try discriminate.
      simpl. intros H. injection H as _ _ _ _ H.
      apply (IH k a b ltac:(lia)). exact H.
    + rewrite (clean_other _ _ E).
      destruct a as [|x a].
      * simpl. intros H. injection H as -> H.
        apply clean_head in H; [|discriminate]. destruct H as (s1 & -> & H).
        apply clean_head in H; [|discriminate]. destruct H as (s2 & -> & _).
        discriminate.
      * simpl. intros H. injection H as _ H.
        apply (IH s a b ltac:(lia)). exact H.
Qed.

(** No [NaN] is left in a cleaned text. *)
Lemma clean_has_no_NaN s a b : clean s <> a ++ lit "NaN" ++ b.
Proof. eapply clean_has_no_NaN_fuel. reflexivity. Qed.


Lemma tier1_describe_keys text max_items :
  startswith (lit "{") (strip (clean text)) = true ->
  Re.findall_keys (slice_to 1000 (clean text)) <> [] ->
  tier1_describe text max_items = keys_description (tier1_keys text max_items).
Proof.
  intros Hs Hk. unfold tier1_describe, tier1_keys. rewrite Hs.
  destruct (Re.findall_keys (slice_to 1000 (clean text))); [congruence|].
  reflexivity.
Qed.

(** C10, as the code has it: the keys that the fast path lists are
    taken from the text in which [NaN] has been replaced by [null],
    names of keys included.  For a file that the fast path reads and
    describes with keys, the analyzer answers with the keys of
    [tier1_keys]; each key listed is a key matched in the text as it
    was read, with that replacement done in it; no key listed has
    [NaN] in it, so that a name with [NaN] in it, which the
    replacement always alters, is never listed as it is in the file;
    and when the cleaned text is within the 1000 characters that are
    searched and its distinct keys are within the cap, every key of
    the file is listed under its altered name. *)
Theorem nan_keys_are_altered :
  forall (file_path : pystr) (max_items : Z) (w : World) (bytes : list byte),
    files w file_path = inr bytes ->
    quiet 3 (faults w) ->
    startswith (lit "{")
      (strip (clean (File.upto 1024 (File.text_of bytes)))) = true ->
    Re.findall_keys (slice_to 1000 (clean (File.upto 1024 (File.text_of bytes))))
    <> [] ->
    analyze_json_structure file_path max_items w
    = (inr (lit "JSON object with keys including: "
            ++ join (lit ", ")
                 (tier1_keys (File.upto 1024 (File.text_of bytes)) max_items)),
       record [Open file_path false; Read 1024%Z; Close] w)
    /\ (forall key,
           In key (tier1_keys (File.upto 1024 (File.text_of bytes)) max_items) ->
           (exists raw,
               In raw (Re.findall_keys (File.upto 1024 (File.text_of bytes)))
               /\ key = clean raw)
           /\ (forall a b, key <> a ++ lit "NaN" ++ b))
    /\ (forall raw a b,
           raw = a ++ lit "NaN" ++ b ->
           clean raw <> raw
           /\ ~ In raw (tier1_keys (File.upto 1024 (File.text_of bytes))
                                   max_items))
    /\ ((len (clean (File.upto 1024 (File.text_of bytes))) <= 1000)%Z ->
        (len (first_seen
                (map clean
                   (Re.findall_keys (File.upto 1024 (File.text_of bytes)))))
         <= max_items)%Z ->
        forall raw,
          In raw (Re.findall_keys (File.upto 1024 (File.text_of bytes))) ->
          In (clean raw)
             (tier1_keys (File.upto 1024 (File.text_of bytes)) max_items)).
Proof.
  intros file_path max_items w bytes Hf Hq Hs Hk.
  set (text := File.upto 1024 (File.text_of bytes)) in *.
  assert (Hlisted : forall key,
             In key (tier1_keys text max_items) ->
             (exists raw, In raw (Re.findall_keys text) /\ key = clean raw)
             /\ (forall a b, key <> a ++ lit "NaN" ++ b)).
  { intros key Hin.
    assert (exists raw, In raw (Re.findall_keys text) /\ key = clean raw)
      as (raw & Hraw & ->).
    { rewrite tier1_keys_spec in Hin. apply In_firstn in Hin.
      apply (proj1 (first_seen_In _ _)) in Hin.
      rewrite slice_to_nonneg in Hin by lia.
      apply findall_keys_firstn in Hin.
      rewrite findall_keys_clean in Hin. apply in_map_iff in Hin.
      destruct Hin as (raw & <- & Hraw). eauto. }
    split; [eauto|]. intros a b. apply clean_has_no_NaN. }
  split; [|split; [exact Hlisted|split]].
  - unfold analyze_json_structure, try_except.
    rewrite (tier1_quiet file_path max_items bytes w Hf Hq).
    fold text. rewrite (tier1_describe_keys text max_items Hs Hk).
    reflexivity.
  - intros raw a b ->. split; [apply clean_changes|].
    intros Hin. destruct (Hlisted _ Hin) as [_ Hno]. exact (Hno a b eq_refl).
  - intros Hlen Hcap raw Hraw.
    rewrite tier1_keys_spec.
    rewrite slice_to_nonneg by lia.
    rewrite (firstn_all2 (n := Z.to_nat 1000) (clean text))
      by (unfold len in Hlen; lia).
    rewrite findall_keys_clean.
    rewrite firstn_all2 by (unfold len in Hcap; lia).
    apply first_seen_In. apply in_map. exact Hraw.
Qed.

End NaNKeys.

Lemma nan_keys_are_altered_witness :
  analyze_json_structure (lit "n.json") 5
    (one_file (lit "n.json") nan_key_file [])
  = (inr (lit "JSON object with keys including: nullCount"),
     record [Open (lit "n.json") false; Read 1024%Z; Close]
            (one_file (lit "n.json") nan_key_file [])).
Proof.
  refine (proj1 (nan_keys_are_altered (lit "n.json") 5
                   (one_file (lit "n.json") nan_key_file []) nan_key_file
                   eq_refl (quiet_nil 3) eq_refl _)).
  vm_compute. discriminate.
Defined.


(** C10, as it is stated, fails: [nan_sixth_file] has the key
    [NaNCount] after five others, and the fast path lists the five:
    neither the altered name nor the name in the file is reported. *)
Lemma nan_sixth_key_counterexample :
  In (lit "NaNCount")
     (Re.findall_keys (File.upto 1024 (File.text_of nan_sixth_file)))
  /\ analyze_json_structure (lit "s.json") 5
       (one_file (lit "s.json") nan_sixth_file [])
     = (inr (lit "JSON object with keys including: a, b, c, d, e"),
        record [Open (lit "s.json") false; Read 1024%Z; Close]
               (one_file (lit "s.json") nan_sixth_file []))
  /\ ~ In (lit "nullCount")
          (tier1_keys (File.upto 1024 (File.text_of nan_sixth_file)) 5)
  /\ ~ In (lit "NaNCount")
          (tier1_keys (File.upto 1024 (File.text_of nan_sixth_file)) 5).
Proof.
  split; [vm_compute; tauto|]. split; [vm_compute; reflexivity|].
  split; vm_compute; intros H;
    repeat (destruct H as [H | H]; [discriminate H|]); exact H.
Qed.

(** The example of C10: the key is [NaNCount], and [nullCount] is
    reported. *)
Example nan_key_file_fast_path :
  Re.findall_keys (File.upto 1024 (File.text_of nan_key_file))
  = [lit "NaNCount"]
  /\ analyze_json_structure (lit "n.json") 5
       (one_file (lit "n.json") nan_key_file [])
     = (inr (lit "JSON object with keys including: nullCount"),
        record [Open (lit "n.json") false; Read 1024%Z; Close]
               (one_file (lit "n.json") nan_key_file [])).
Proof. split; reflexivity. Qed.

(** ** The counters of the loops of the decoder *)

Section JsonCounters.

Lemma skip_whitespace_length s :
  length (Json.skip_whitespace s) <= length s.
Proof.
  induction s as [|c s IH]; simpl; [lia|].
  destruct (Json.is_whitespace c); simpl; lia.
Qed.

Lemma push_inv {A} c (r : exn + (pystr * A)) str rest :
  Json.push c r = inr (str, rest) ->
  exists str', r = inr (str', rest).
Proof.
  destruct r as [e | [str' rest']]; simpl; [discriminate|].
  intros H. injection H as _ <-. eauto.
Qed.

Lemma scanstring_length n : forall s str rest,
  length s <= n ->
  Json.scanstring s = inr (str, rest) -> length rest < length s.
Proof.
  induction n as [|n IH]; intros s str rest Hn.
  - destruct s; [discriminate | simpl in Hn; lia].
  - destruct s as [|c s1]; [discriminate|].
    cbn [Json.scanstring].
    repeat match goal with
           | |- context [if ?c then _ else _] => destruct c
           | |- context [match ?l with [] => _ | _ :: _ => _ end] =>
               is_var l; destruct l
           | |- context [match ?o with Some _ => _ | None => _ end] =>
               destruct o
           end;
      try discriminate;
      try (intros H; injection H as _ <-; cbn [length]; lia);
      intros H; apply push_inv in H; destruct H as [str' H];
      apply IH in H; cbn [length] in *; lia.
Qed.


Lemma startswith_length prefix : forall s,
  startswith prefix s = true -> length prefix <= length s.
Proof.
  induction prefix as [|p prefix IH]; intros [|c s]; simpl;
    try discriminate; try lia.
  intros H. apply andb_true_iff in H. destruct H as [_ H].
  apply IH in H. lia.
Qed.

Lemma lit_length name : length (lit name) = String.length name.
Proof.
  unfold lit. rewrite length_map.
  induction name as [|a name IH]; simpl; [reflexivity | rewrite IH].
  reflexivity.
Qed.

Lemma constant_length name v s r :
  0 < String.length name ->
  Json.constant name v s = Some r -> length (snd r) < length s.
Proof.
  intros Hname. unfold Json.constant.
  destruct (startswith _ _) eqn:E; [|discriminate].
  apply startswith_length in E. rewrite lit_length in E.
  intros H. injection H as <-. simpl. rewrite length_skipn. lia.
Qed.

Lemma match_constant_length s r :
  Json.match_constant s = Some r -> length (snd r) < length s.
Proof.
  unfold Json.match_constant.
  repeat match goal with
         | |- context [Json.constant ?name ?v s] =>
             let E := fresh "E" in
             destruct (Json.constant name v s) eqn:E;
             [intros H; injection H as <-;
              eapply constant_length; [|exact E]; simpl; lia|]
         end.
  discriminate.
Qed.

Lemma span_digits_length s :
  length (snd (Json.span_digits s)) <= length s.
Proof.
  induction s as [|c s IH]; simpl; [lia|].
  destruct (Json.is_digit c); [|simpl; lia].
  destruct (Json.span_digits s); simpl in *; lia.
Qed.

Lemma match_number_length s lexeme is_float rest :
  Json.match_number s = Some (lexeme, is_float, rest) ->
  length rest < length s.
Proof.
  unfold Json.match_number.
  repeat match goal with
         | |- context [Json.span_digits ?r] =>
             let H := fresh "Hd" in
             pose proof (span_digits_length r) as H;
             destruct (Json.span_digits r) as [? ?]; cbn [snd] in H
         | |- context [if ?c then _ else _] => destruct c
         | |- context [match ?l with [] => _ | _ :: _ => _ end] =>
             is_var l; destruct l
         end;
    try discriminate;
    intros H; injection H as _ _ <-; cbn [length] in *; lia.
Qed.

Lemma object_loop_length scan :
  shrinking scan ->
  forall n s rval v rest,
    Json.object_loop scan n s rval = inr (v, rest) -> length rest < length s.
Proof.
  intros Hscan. induction n as [|n IH]; intros s rval v rest; simpl;
    [discriminate|].
  destruct s as [|q s1]; [discriminate|].
  destruct (char_eqb q dquote); [|discriminate].
  destruct (Json.scanstring s1) as [e | [key s2]] eqn:E1; [discriminate|].
  apply (scanstring_length (length s1)) in E1; [|lia].
  pose proof (skip_whitespace_length s2) as H2.
  destruct (Json.skip_whitespace s2) as [|colon s3]; [discriminate|].
  destruct (char_eqb colon 58%N); [|discriminate].
  pose proof (skip_whitespace_length s3) as H3.
  destruct (scan (Json.skip_whitespace s3)) as [e | [val s4]] eqn:E4;
    [discriminate|].
  apply Hscan in E4.
  pose proof (skip_whitespace_length s4) as H4.
  destruct (Json.skip_whitespace s4) as [|d s5]; [discriminate|].
  pose proof (skip_whitespace_length s5) as H5.
  destruct (char_eqb d 125%N).
  - intros H. injection H as _ <-. cbn [length] in *. lia.
  - destruct (char_eqb d 44%N); [|discriminate].
    intros H. apply IH in H. cbn [length] in *. lia.
Qed.

Lemma array_loop_length scan :
  shrinking scan ->
  forall n s rval v rest,
    Json.array_loop scan n s rval = inr (v, rest) -> length rest < length s.
Proof.
  intros Hscan. induction n as [|n IH]; intros s rval v rest; simpl;
    [discriminate|].
  destruct (scan s) as [e | [val s1]] eqn:E1; [discriminate|].
  apply Hscan in E1.
  pose proof (skip_whitespace_length s1) as H1.
  destruct (Json.skip_whitespace s1) as [|d s2]; [discriminate|].
  pose proof (skip_whitespace_length s2) as H2.
  destruct (char_eqb d 93%N).
  - intros H. injection H as _ <-. cbn [length] in *. lia.
  - destruct (char_eqb d 44%N); [|discriminate].
    intros H. apply IH in H. cbn [length] in *. lia.
Qed.

Lemma scan_once_shrinking max_digits depth :
  shrinking (Json.scan_once max_digits depth).
Proof.
  induction depth as [|depth IH]; intros s v rest;
    (destruct s as [|c s']; cbn [Json.scan_once]; [discriminate|]);
    (destruct (char_eqb c dquote);
     [destruct (Json.scanstring s') as [e | [str r]] eqn:E; [discriminate|];
      apply (scanstring_length (length s')) in E; [|lia];
      intros H; injection H as _ <-; cbn [length]; lia|]).
  - destruct (char_eqb c 123%N); [discriminate|].
    destruct (char_eqb c 91%N); [discriminate|].
    destruct (Json.match_constant (c :: s')) as [r|] eqn:E.
    { intros H. injection H as ->. apply match_constant_length in E.
      exact E. }
    destruct (Json.match_number (c :: s')) as [[[lx fl] r]|] eqn:En;
      [|discriminate].
    apply match_number_length in En.
    destruct (Json.number max_digits lx fl); [discriminate|].
    intros H. injection H as _ <-. exact En.
  - pose proof (skip_whitespace_length s') as Hw.
    destruct (char_eqb c 123%N).
    { destruct (Json.skip_whitespace s') as [|c0 rest0]; [discriminate|].
      destruct (char_eqb c0 125%N).
      - intros H. injection H as _ <-. cbn [length] in *. lia.
      - intros H. apply (object_loop_length _ IH) in H.
        cbn [length] in *. lia. }
    destruct (char_eqb c 91%N).
    { destruct (Json.skip_whitespace s') as [|c0 rest0]; [discriminate|].
      destruct (char_eqb c0 93%N).
      - intros H. injection H as _ <-. cbn [length] in *. lia.
      - intros H. apply (array_loop_length _ IH) in H.
        cbn [length] in *. lia. }
    destruct (Json.match_constant (c :: s')) as [r|] eqn:E.
    { intros H. injection H as ->. apply match_constant_length in E.
      exact E. }
    destruct (Json.match_number (c :: s')) as [[[lx fl] r]|] eqn:En;
      [|discriminate].
    apply match_number_length in En.
    destruct (Json.number max_digits lx fl); [discriminate|].
    intros H. injection H as _ <-. exact En.
Qed.

(** The counter of the loop over the members of an object never runs
    out: from the number of characters left on, a larger counter gives
    the same result. *)
Lemma object_loop_counter scan :
  shrinking scan ->
  forall n m s rval,
    length s <= n -> s <> [] -> n <= m ->
    Json.object_loop scan n s rval = Json.object_loop scan m s rval.
Proof.
  intros Hscan. induction n as [|n IH]; intros m s rval Hn Hs Hm.
  - destruct s; [congruence | simpl in Hn; lia].
  - destruct m as [|m]; [lia|]. cbn [Json.object_loop].
    destruct s as [|q s1]; [reflexivity|].
    destruct (char_eqb q dquote); [|reflexivity].
    destruct (Json.scanstring s1) as [e | [key s2]] eqn:E1; [reflexivity|].
    apply (scanstring_length (length s1)) in E1; [|lia].
    pose proof (skip_whitespace_length s2) as H2.
    destruct (Json.skip_whitespace s2) as [|colon s3]; [reflexivity|].
    destruct (char_eqb colon 58%N); [|reflexivity].
    pose proof (skip_whitespace_length s3) as H3.
    destruct (scan (Json.skip_whitespace s3)) as [e | [val s4]] eqn:E4;
      [reflexivity|].
    apply Hscan in E4.
    pose proof (skip_whitespace_length s4) as H4.
    destruct (Json.skip_whitespace s4) as [|d s5]; [reflexivity|].
    pose proof (skip_whitespace_length s5) as H5.
    destruct (char_eqb d 125%N); [reflexivity|].
    destruct (char_eqb d 44%N); [|reflexivity].
    cbn [length] in *.
    destruct (Json.skip_whitespace s5) as [|c5 s6] eqn:E5.
    + destruct n as [|n]; [lia|]. destruct m as [|m]; [lia|]. reflexivity.
    + apply IH; [cbn [length] in *; lia | discriminate | lia].
Qed.

Lemma array_loop_counter scan :
  shrinking scan ->
  forall n m s rval,
    length s <= n -> s <> [] -> n <= m ->
    Json.array_loop scan n s rval = Json.array_loop scan m s rval.
Proof.
  intros Hscan. induction n as [|n IH]; intros m s rval Hn Hs Hm.
  - destruct s; [congruence | simpl in Hn; lia].
  - destruct m as [|m]; [lia|]. cbn [Json.array_loop].
    destruct (scan s) as [e | [val s1]] eqn:E1; [reflexivity|].
    apply Hscan in E1.
    pose proof (skip_whitespace_length s1) as H1.
    destruct (Json.skip_whitespace s1) as [|d s2]; [reflexivity|].
    pose proof (skip_whitespace_length s2) as H2.
    destruct (char_eqb d 93%N); [reflexivity|].
    destruct (char_eqb d 44%N); [|reflexivity].
    cbn [length] in *.
    destruct (Json.skip_whitespace s2) as [|c2 s3] eqn:E2.
    + destruct n as [|n]; [lia|]. destruct m as [|m]; [lia|].
      cbn [Json.array_loop].
      destruct (scan []) as [e | [v r]] eqn:E0; [reflexivity|].
      apply Hscan in E0. simpl in E0. lia.
    + apply IH; [cbn [length] in *; lia | discriminate | lia].
Qed.

(** As [scan_once] starts them, the two loops have all the rounds they
    can use. *)
Lemma scan_once_counters max_digits depth s extra :
  s <> [] ->
  Json.object_loop (Json.scan_once max_digits depth) (length s) s []
  = Json.object_loop (Json.scan_once max_digits depth) (length s + extra) s []
  /\ Json.array_loop (Json.scan_once max_digits depth) (length s) s []
     = Json.array_loop (Json.scan_once max_digits depth) (length s + extra) s [].
Proof.
  intros Hs. split.
  - apply object_loop_counter;
      [apply scan_once_shrinking | lia | exact Hs | lia].
  - apply array_loop_counter;
      [apply scan_once_shrinking | lia | exact Hs | lia].
Qed.

End JsonCounters.

(** * Further properties *)

(** ** System calls *)

Lemma not_quiet_some n l1 msg l2 :
  length l1 < n -> ~ quiet n (l1 ++ Some msg :: l2).
Proof.
  revert n. induction l1 as [|f l1 IH]; intros n Hn Hq.
  - destruct n as [|n]; [simpl in Hn; lia|].
    apply quiet_cons in Hq. destruct Hq as [Hq _]. discriminate.
  - destruct n as [|n]; [simpl in Hn; lia|].
    simpl in Hq. apply quiet_cons in Hq. destruct Hq as [_ Hq].
    apply (IH n); [simpl in Hn; lia | exact Hq].
Qed.

Lemma tier1_raises path max_items w e w' :
  tier1 path max_items w = (inl e, w') ->
  exn_class_of e = OSError
  /\ ((exists msg, files w path = inl msg) \/ ~ quiet 3 (faults w)).
Proof.
  unfold tier1, File.with_open, File.open, File.read, File.close, bind, ask,
    sys, ret, raise, record.
  destruct w as [fs fl tr rl md]. simpl.
  destruct (fs path) as [msg | bytes] eqn:Hf.
  - destruct fl as [|[m1|] fl]; simpl; rewrite ?Hf; simpl;
      intros H; injection H as <- _; split; eauto.
  - destruct fl as [|[m1|] [|[m2|] [|[m3|] fl]]]; simpl; rewrite ?Hf; simpl;
      intros H; try discriminate; injection H as <- _;
      (split; [reflexivity|]); right; intros Hq; unfold quiet in Hq;
      simpl in Hq;
      repeat match goal with
             | H : Forall _ (_ :: _) |- _ => inversion H; clear H; subst
             end;
      congruence.
Qed.


















(** What [read_preview] has read when it returns. *)
Lemma read_preview_returns path max_bytes w size text w1 :
  read_preview path max_bytes w = (inr (size, text), w1) ->
  exists bytes,
    files w path = inr bytes /\ size = len bytes
    /\ text = File.upto max_bytes (File.text_of bytes).
Proof.
  unfold read_preview, File.getsize, File.with_open, File.open, File.read,
    File.close, bind, ask, sys, ret, raise, record.
  destruct w as [fs fl tr rl md]. simpl.
  destruct (File.fits_ssize_t max_bytes);
    (destruct (fs path) as [msg | bytes] eqn:Hf;
     [ destruct fl as [|[m1|] fl]; simpl; rewrite ?Hf; simpl; discriminate
     | destruct fl as [|[m1|] [|[m2|] [|[m3|] [|[m4|] fl]]]]; simpl;
       repeat (rewrite Hf; simpl); try discriminate;
       intros H; injection H as <- <- _; eauto ]).
Qed.

Lemma preview_large_json_cases path max_bytes w r w' :
  preview_large_json path max_bytes w = (inr r, w') ->
  (exists e, read_preview path max_bytes w = (inl e, w')
             /\ r = {| preview := lit "Error reading file: " ++ str_exn e;
                       structure := lit "Error";
                       file_size := 0 |})
  \/ (exists bytes d w1,
         files w path = inr bytes
         /\ read_preview path max_bytes w
            = (inr (len bytes, File.upto max_bytes (File.text_of bytes)), w1)
         /\ analyze_json_structure path 5 w1 = (inr d, w')
         /\ r = {| preview := File.upto max_bytes (File.text_of bytes);
                   structure := d;
                   file_size := len bytes |}).
Proof.
  intros H.
  destruct (read_preview path max_bytes w) as [[e | [size text]] w1] eqn:Hr.
  - rewrite (preview_large_json_read_raises _ _ _ _ _ Hr) in H.
    injection H as <- <-. left. eauto.
  - destruct (read_preview_returns _ _ _ _ _ _ Hr) as (bytes & Hf & -> & ->).
    destruct (preview_large_json_read_returns _ _ _ _ _ _ Hr)
      as (d & w2 & Ha & Hp).
    rewrite Hp in H. injection H as <- <-. right.
    exists bytes, d, w1. auto.
Qed.

(** A description that the analyzer returns starts with a letter that
    is not E. *)
Lemma analyze_json_structure_not_error path max_items w d w' :
  analyze_json_structure path max_items w = (inr d, w') -> d <> lit "Error".
Proof.
  intros H. apply analyze_json_structure_result in H.
  destruct H as [[text ->] | [(md & depth & content & H) | [[b ->] | [e ->]]]].
  - unfold tier1_describe, keys_description.
    destruct (startswith (lit "{") _);
      [destruct (Re.findall_keys _)|destruct (startswith (lit "[") _)];
      discriminate.
  - unfold tier2_describe, keys_description, keys_of in H.
    destruct (startswith (lit "{") _); [|injection H as <-; discriminate].
    destruct (0 <? _)%Z; [|injection H as <-; discriminate].
    destruct (Json.loads _ _ _) as [e | []]; try discriminate;
      injection H as <-; discriminate.
  - unfold tier3_describe.
    destruct (str_eqb _ _); [|destruct (str_eqb _ _)]; discriminate.
  - discriminate.
Qed.

(** X3: in the result of a probe, the structure is the string [Error]
    exactly when the size or the preview could not be read: no
    description that the analyzer returns is that string. *)
Theorem error_structure_iff :
  forall (file_path : pystr) (max_bytes : Z) (w : World) (r : ProbeResult)
         (w' : World),
    preview_large_json file_path max_bytes w = (inr r, w') ->
    (structure r = lit "Error"
     <-> exists e w1, read_preview file_path max_bytes w = (inl e, w1)).
Proof.
  intros file_path max_bytes w r w' H.
  apply preview_large_json_cases in H.
  destruct H as [(e & Hr & ->) | (bytes & d & w1 & Hf & Hr & Ha & ->)].
  - split; [eauto | reflexivity].
  - simpl. split.
    + intros Hd. apply analyze_json_structure_not_error in Ha. contradiction.
    + intros (e & w2 & He). rewrite Hr in He. discriminate.
Qed.

Lemma error_structure_iff_witness :
  structure {| preview := lit "Error reading file: [Errno 2] No such file or directory";
               structure := lit "Error";
               file_size := 0 |} = lit "Error"
  <-> exists e w1,
        read_preview (lit "missing.json") 10240
          (one_file (lit "routes.json") [] []) = (inl e, w1).
Proof.
  eapply (error_structure_iff (lit "missing.json") 10240
            (one_file (lit "routes.json") [] [])).
  reflexivity.
Defined.

(** X1: for a path that reaches the operating system, the first
    attempt of the analyzer fails on I/O only.  When the file is there
    and its three system calls succeed, the analyzer answers with the
    description of the first 1024 characters and makes no other call,
    whatever the file holds; and when the first attempt raises, it
    raises an [OSError], the file being missing or one of the three
    calls failing. *)
Theorem first_attempt_decided_by_io :
  forall (file_path : pystr) (max_items : Z) (w : World),
    fs_path file_path = true ->
    (forall bytes,
        files w file_path = inr bytes ->
        quiet 3 (faults w) ->
        analyze_json_structure file_path max_items w
        = (inr (tier1_describe (File.upto 1024 (File.text_of bytes))
                               max_items),
           record [Open file_path false; Read 1024%Z; Close] w))
    /\ (forall e w',
           tier1 file_path max_items w = (inl e, w') ->
           exn_class_of e = OSError
           /\ ((exists msg, files w file_path = inl msg)
               \/ ~ quiet 3 (faults w))).
Proof.
  intros file_path max_items w _. split.
  - intros bytes Hf Hq. unfold analyze_json_structure, try_except.
    rewrite (tier1_quiet file_path max_items bytes w Hf Hq). reflexivity.
  - intros e w'. apply tier1_raises.
Qed.

Lemma first_attempt_decided_by_io_witness :
  analyze_json_structure (lit "b.json") 5
    (one_file (lit "b.json") broken_file [])
  = (inr (lit "JSON object (dictionary)"),
     record [Open (lit "b.json") false; Read 1024%Z; Close]
            (one_file (lit "b.json") broken_file [])).
Proof.
  exact (proj1 (first_attempt_decided_by_io (lit "b.json") 5
                  (one_file (lit "b.json") broken_file []) eq_refl)
               broken_file eq_refl (quiet_nil 3)).
Defined.

(** ** More on the size in a unit *)

Section FormatFileSizeMore.
Local Open Scope Z_scope.

(** The loop over the four units does not come to its end. *)
Lemma format_file_size_loop_not_none x :
  format_file_size_loop [lit "B"; lit "KB"; lit "MB"; lit "GB"] x
  <> inr None.
Proof.
  cbn [format_file_size_loop].
  destruct (lt_1024 x || _); [destruct (format_spec_2f x); discriminate|].
  destruct (truediv_1024 x) as [e | x1]; [discriminate|].
  destruct (lt_1024 x1 || _); [destruct (format_spec_2f x1); discriminate|].
  destruct (truediv_1024 x1) as [e | x2]; [discriminate|].
  destruct (lt_1024 x2 || _); [destruct (format_spec_2f x2); discriminate|].
  destruct (truediv_1024 x2) as [e | x3]; [discriminate|].
  replace (str_eqb (lit "GB") (lit "GB")) with true by reflexivity.
  rewrite orb_true_r. destruct (format_spec_2f x3); discriminate.
Qed.

(** X4: [format_file_size] never falls off the end of its loop: for no
    integer does it return [None]. *)
Theorem format_file_size_never_none :
  forall n : Z, format_file_size n <> inr None.
Proof. intros n. apply format_file_size_loop_not_none. Qed.

Lemma two_digits_zero : two_digits 0 = lit "00".
Proof. reflexivity. Qed.

Lemma round53_opp n : round53 (- n) = - round53 n.
Proof.
  unfold round53. rewrite Z.abs_opp, Z.sgn_opp.
  destruct (Z.abs n <? 2 ^ 53); [reflexivity|]. lia.
Qed.

Lemma round53_neg n : n < 0 -> round53 n < 0.
Proof.
  intros H. destruct (Z.lt_ge_cases (- n) (2 ^ 53)) as [Hs | Hl].
  - rewrite round53_small by lia. exact H.
  - pose proof (round53_large (- n) Hl) as Hr.
    rewrite round53_opp in Hr. lia.
Qed.

(** X5: a negative size is below 1024, so it is rendered in bytes,
    with its sign, as the float that it converts to: the size itself
    down to [-2^53], the nearest float below that, and an
    [OverflowError] when that float would be [-2^1024] or less. *)
Theorem format_file_size_negative :
  forall n : Z,
    n < 0 ->
    (- 2 ^ 53 <= n -> round53 n = n)
    /\ (- 2 ^ 1024 < round53 n ->
        format_file_size n
        = inr (Some (lit "-" ++ digits (- round53 n) ++ lit ".00 B")))
    /\ (round53 n <= - 2 ^ 1024 ->
        format_file_size n
        = inl (Exn OverflowError (lit "int too large to convert to float"))).
Proof.
  intros n Hn. pose proof (round53_neg n Hn) as Hr.
  assert (Hlt : lt_1024 (Int n) = true) by (simpl; apply Z.ltb_lt; lia).
  split; [|split].
  - intros Hs. destruct (Z.eq_dec n (- 2 ^ 53)) as [-> | Hne];
      [reflexivity | apply round53_small; lia].
  - intros Hfit. unfold format_file_size. cbn [format_file_size_loop].
    rewrite Hlt. cbn [orb format_spec_2f].
    destruct (Z.leb_spec (2 ^ 1024) (Z.abs (round53 n))) as [Hbig | _];
      [lia|].
    unfold format_2f, hundredths, is_negative.
    replace (n <? 0) with true by (symmetry; apply Z.ltb_lt; exact Hn).
    replace (100 * Z.abs (round53 n) / 100) with (- round53 n).
    2:{ rewrite Z.mul_comm, Z.div_mul by lia. lia. }
    replace (100 * Z.abs (round53 n) mod 100) with 0.
    2:{ rewrite Z.mul_comm, Z.mod_mul by lia. reflexivity. }
    rewrite two_digits_zero. rewrite <- !app_assoc. reflexivity.
  - intros Hbig. unfold format_file_size. cbn [format_file_size_loop].
    rewrite Hlt. cbn [orb format_spec_2f].
    destruct (Z.leb_spec (2 ^ 1024) (Z.abs (round53 n))) as [_ | Hsmall];
      [reflexivity | lia].
Qed.

Lemma format_file_size_negative_witness :
  format_file_size (- (2 ^ 53 + 1))
  = inr (Some (lit "-" ++ digits (- round53 (- (2 ^ 53 + 1))) ++ lit ".00 B")).
Proof.
  apply (proj1 (proj2 (format_file_size_negative (- (2 ^ 53 + 1))
                         ltac:(reflexivity)))).
  reflexivity.
Defined.

Example format_file_size_beyond_2_53 :
  format_file_size (- (2 ^ 53 + 1))
  = inr (Some (lit "-9007199254740992.00 B")).
Proof. vm_compute. reflexivity. Qed.

Lemma round53_at_least n p :
  2 ^ 53 <= n -> 0 <= p -> 2 ^ p <= n -> 2 ^ p <= round53 n.
Proof.
  intros H Hp Hpn. unfold round53.
  rewrite Z.abs_eq by lia.
  destruct (Z.ltb_spec n (2 ^ 53)) as [Hlt | _]; [lia|].
  assert (Hpos : 0 < n) by lia.
  pose proof (Z.log2_spec n Hpos) as [Hlo Hhi].
  assert (Hlog : 53 <= Z.log2 n) by (apply Z.log2_le_pow2; lia).
  assert (Hplog : p <= Z.log2 n) by (apply Z.log2_le_pow2; lia).
  assert (Hpl : 2 ^ p <= 2 ^ Z.log2 n) by (apply Z.pow_le_mono_r; lia).
  set (e := Z.log2 n - 52) in *.
  assert (He : 1 <= e) by (unfold e; lia).
  replace (Z.log2 n) with (52 + e) in Hlo, Hpl by (unfold e; lia).
  rewrite Z.pow_add_r in Hlo, Hpl by lia.
  assert (HP : 0 < 2 ^ e) by (apply Z.pow_pos_nonneg; lia).
  set (P := 2 ^ e) in *.
  pose proof (Z.div_mod n P ltac:(lia)) as Hdm.
  pose proof (Z.mod_pos_bound n P HP) as Hm.
  set (q := n / P) in *. set (r := n mod P) in *.
  assert (Hq : 2 ^ 52 <= q) by nia.
  rewrite Z.sgn_pos by lia.
  destruct (r <? 2 ^ (e - 1)); [nia|].
  destruct (2 ^ (e - 1) <? r); [nia|].
  destruct (Z.even q); nia.
Qed.

(** X6: from [2^1034] on, the first division by 1024 does not fit a
    float: [format_file_size] raises [OverflowError]. *)
Theorem format_file_size_overflow :
  forall n : Z,
    2 ^ 1034 <= n ->
    exists msg, format_file_size n = inl (Exn OverflowError msg).
Proof.
  intros n Hn.
  assert (2 ^ 53 <= 2 ^ 1034) as H53 by (apply Z.pow_le_mono_r; lia).
  assert (1024 < 2 ^ 53) as H10 by reflexivity.
  pose proof (round53_at_least n 1034 ltac:(lia) ltac:(lia) Hn) as Hr.
  unfold format_file_size. cbn [format_file_size_loop].
  replace (lt_1024 (Int n)) with false
    by (symmetry; simpl; apply Z.ltb_ge; lia).
  replace (str_eqb (lit "B") (lit "GB")) with false by reflexivity.
  cbn [orb truediv_1024].
  rewrite Z.abs_eq by lia.
  destruct (Z.leb_spec (2 ^ 1034) (round53 n)) as [_ | Hlt]; [|lia].
  eauto.
Qed.

Lemma format_file_size_overflow_witness :
  exists msg, format_file_size (2 ^ 1040) = inl (Exn OverflowError msg).
Proof.
  apply (format_file_size_overflow (2 ^ 1040)).
  apply Z.pow_le_mono_r; lia.
Defined.


End FormatFileSizeMore.



(** ** More on the text that is read *)

Section TextFacts.

Lemma lstrip_head s x rest : lstrip s = x :: rest -> isspace x = false.
Proof.
  induction s as [|c s IH]; simpl; [discriminate|].
  destruct (isspace c) eqn:E; [exact IH|].
  intros H. injection H as <- _. exact E.
Qed.

Lemma lstrip_app_last a x :
  isspace x = false -> exists l, lstrip (a ++ [x]) = l ++ [x].
Proof.
  intros Hx. induction a as [|c a IH]; simpl.
  - rewrite Hx. exists []. reflexivity.
  - destruct (isspace c); [exact IH|]. exists (c :: a). reflexivity.
Qed.

(** Stripping on the right leaves the first character where it is. *)
Lemma startswith_rstrip p x s :
  isspace x = false ->
  startswith [p] (rstrip (x :: s)) = startswith [p] (x :: s).
Proof.
  intros Hx. unfold rstrip. simpl rev.
  destruct (lstrip_app_last (rev s) x Hx) as [l' ->].
  rewrite rev_app_distr. reflexivity.
Qed.

Lemma startswith_strip p s :
  startswith [p] (strip s) = startswith [p] (lstrip s).
Proof.
  unfold strip. destruct (lstrip s) as [|x rest] eqn:E; [reflexivity|].
  apply startswith_rstrip. eapply lstrip_head. exact E.
Qed.


Lemma isspace_not_N c : isspace c = true -> c <> 78%N.
Proof. intros H ->. discriminate. Qed.

Lemma startswith_NaN_head c rest :
  c <> 78%N -> startswith (lit "NaN") (c :: rest) = false.
Proof.
  intros Hc. change (lit "NaN") with [78%N; 97%N; 78%N].
  cbn [startswith]. unfold char_eqb.
  destruct (N.eqb_spec 78 c); [congruence | reflexivity].
Qed.

(** Cleaning goes past leading white space. *)
Lemma lstrip_clean t : lstrip (clean t) = clean (lstrip t).
Proof.
  induction t as [|c t IH]; [reflexivity|].
  cbn [lstrip]. destruct (isspace c) eqn:E.
  - rewrite clean_other
      by (apply startswith_NaN_head, isspace_not_N; exact E).
    cbn [lstrip]. rewrite E. exact IH.
  - destruct (startswith (lit "NaN") (c :: t)) eqn:En.
    + apply startswith_NaN in En. destruct En as [k En].
      injection En as -> ->. reflexivity.
    + rewrite (clean_other _ _ En). cbn [lstrip]. rewrite E. reflexivity.
Qed.

(** Cleaning leaves a first character that is neither [N] nor [n]
    where it is. *)
Lemma startswith_clean p t :
  p <> 78%N -> p <> 110%N ->
  startswith [p] (clean t) = startswith [p] t.
Proof.
  intros H1 H2. destruct t as [|c t]; [reflexivity|].
  destruct (startswith (lit "NaN") (c :: t)) eqn:En.
  - apply startswith_NaN in En. destruct En as [k En].
    injection En as -> ->. rewrite clean_NaN. cbn. unfold char_eqb.
    destruct (N.eqb_spec p 110), (N.eqb_spec p 78); congruence.
  - rewrite (clean_other _ _ En). reflexivity.
Qed.

Lemma startswith_strip_clean p t :
  p <> 78%N -> p <> 110%N ->
  startswith [p] (strip (clean t)) = startswith [p] (lstrip t).
Proof.
  intros H1 H2.
  rewrite startswith_strip, lstrip_clean. apply startswith_clean; assumption.
Qed.

(** X8: the fast path classifies a text by its first character that is
    not white space, as the text was read: an opening bracket makes it
    an array, an opening brace an object, with or without a list of
    keys, and anything else, the empty and the blank text included, an
    unknown structure.  Replacing [NaN] and stripping on the right
    change nothing to that. *)
Theorem tier1_classifies :
  forall (text : pystr) (max_items : Z),
    (forall rest,
        lstrip text = 0x5B%N :: rest ->
        tier1_describe text max_items = lit "JSON array (list)")
    /\ (forall rest,
           lstrip text = 0x7B%N :: rest ->
           tier1_describe text max_items = lit "JSON object (dictionary)"
           \/ tier1_describe text max_items
              = keys_description (tier1_keys text max_items))
    /\ (lstrip text = [] ->
        tier1_describe text max_items = lit "Unknown JSON structure")
    /\ (forall c rest,
           lstrip text = c :: rest -> c <> 0x7B%N -> c <> 0x5B%N ->
           tier1_describe text max_items = lit "Unknown JSON structure").
Proof.
  intros text max_items. unfold tier1_describe, tier1_keys.
  change (lit "{") with [0x7B%N]. change (lit "[") with [0x5B%N].
  rewrite !startswith_strip_clean by discriminate.
  repeat split.
  - intros rest ->. reflexivity.
  - intros rest ->. cbn [startswith]. simpl.
    destruct (Re.findall_keys _); [left | right]; reflexivity.
  - intros ->. reflexivity.
  - intros c rest -> H1 H2. cbn [startswith]. unfold char_eqb.
    destruct (N.eqb_spec 123 c); [congruence|].
    destruct (N.eqb_spec 91 c); [congruence|]. reflexivity.
Qed.


(** *** What a read returns *)

Lemma universal_newlines_no_cr_fuel n : forall s,
  length s <= n -> ~ In 0x0D%N (File.universal_newlines s).
Proof.
  induction n as [|n IH]; intros s Hn.
  - destruct s; [intros [] | simpl in Hn; lia].
  - destruct s as [|c rest]; [intros []|]. cbn [length] in Hn.
    cbn [File.universal_newlines]. unfold char_eqb.
    destruct (N.eqb_spec c 13) as [-> | Hc].
    + intros [H | H]; [discriminate|]. revert H.
      destruct rest as [|c' rest']; [intros []|].
      destruct (c' =? 10)%N; apply IH; cbn [length] in *; lia.
    + intros [H | H]; [congruence|]. revert H. apply IH. lia.
Qed.

Lemma universal_newlines_id s :
  ~ In 0x0D%N s -> File.universal_newlines s = s.
Proof.
  induction s as [|c s IH]; [reflexivity|]. intros H.
  cbn [File.universal_newlines]. unfold char_eqb.
  destruct (N.eqb_spec c 13) as [-> | Hc]; [exfalso; apply H; left; reflexivity|].
  rewrite IH; [reflexivity|]. intros Hin. apply H. right. exact Hin.
Qed.

Ltac bool_props :=
  repeat match goal with
         | H : (_ <? _)%N = true |- _ => apply N.ltb_lt in H
         | H : (_ <? _)%N = false |- _ => apply N.ltb_ge in H
         | H : (_ <=? _)%N = true |- _ => apply N.leb_le in H
         | H : (_ <=? _)%N = false |- _ => apply N.leb_gt in H
         | H : (_ =? _)%N = true |- _ => apply N.eqb_eq in H
         | H : (_ =? _)%N = false |- _ => apply N.eqb_neq in H
         | H : _ && _ = true |- _ => apply andb_true_iff in H; destruct H
         | H : _ && _ = false |- _ => apply andb_false_iff in H
         | H : _ || _ = false |- _ => apply orb_false_iff in H; destruct H
         | H : _ || _ = true |- _ => apply orb_true_iff in H
         | H : negb _ = true |- _ => apply negb_true_iff in H
         | H : negb _ = false |- _ => apply negb_false_iff in H
         | H : (if ?c then _ else _) = _ |- _ => destruct c eqn:?
         | H : _ \/ _ |- _ => destruct H
         end.

Lemma scalar_value_intro c :
  (c < 0xD800 \/ 0xE000 <= c < 0x110000)%N -> Utf8.scalar_value c = true.
Proof.
  intros H. unfold Utf8.scalar_value.
  apply orb_true_iff. rewrite andb_true_iff, N.ltb_lt, N.leb_le, N.ltb_lt.
  lia.
Qed.

(** The decoder gives scalar values only. *)
Lemma decode_ignore_scalar_fuel n : forall bs,
  length bs <= n ->
  Forall (fun c => Utf8.scalar_value c = true) (Utf8.decode_ignore bs).
Proof.
  induction n as [|n IH]; intros bs Hn.
  - destruct bs; [constructor | simpl in Hn; lia].
  - destruct bs as [|b0 r1]; [constructor|].
    cbn [Utf8.decode_ignore].
    pose proof (Byte.to_N_bounded b0) as Hb0.
    repeat match goal with
           | |- context [if ?c then _ else _] => destruct c eqn:?
           | |- context [match ?l with [] => _ | _ :: _ => _ end] =>
               is_var l; destruct l
           end;
      unfold Utf8.is_continuation in *; bool_props;
      cbn [length] in *;
      first
        [ constructor; [apply scalar_value_intro; lia|];
          apply IH; cbn [length]; lia
        | apply IH; cbn [length]; lia
        | constructor ].
Qed.


Lemma universal_newlines_scalar_fuel n : forall s,
  length s <= n ->
  Forall (fun c => Utf8.scalar_value c = true) s ->
  Forall (fun c => Utf8.scalar_value c = true) (File.universal_newlines s).
Proof.
  induction n as [|n IH]; intros s Hn Hs.
  - destruct s; [constructor | simpl in Hn; lia].
  - destruct s as [|c rest]; [constructor|]. cbn [length] in Hn.
    inversion Hs as [|? ? Hc Hrest]; subst.
    cbn [File.universal_newlines].
    destruct (char_eqb c 13%N).
    + constructor; [reflexivity|].
      destruct rest as [|c' rest']; [constructor|].
      inversion Hrest; subst.
      destruct (char_eqb c' 10%N); apply IH; cbn [length] in *;
        try lia; assumption.
    + constructor; [exact Hc|]. apply IH; [lia | exact Hrest].
Qed.

Lemma text_of_encode s :
  Forall (fun c => Utf8.scalar_value c = true) s ->
  File.text_of (Utf8.encode s) = File.universal_newlines s.
Proof.
  intros Hs. unfold File.text_of.
  rewrite <- (app_nil_r (Utf8.encode s)).
  rewrite decode_encode by exact Hs. simpl. rewrite app_nil_r. reflexivity.
Qed.

(** X9: the text read from a file, whatever its bytes, is made of
    scalar values and has no carriage return in it; written out in
    UTF-8, as the report is, and read again, it is the same text. *)
Theorem text_read_is_well_formed :
  forall bytes : list byte,
    Forall (fun c => Utf8.scalar_value c = true) (File.text_of bytes)
    /\ ~ In 0x0D%N (File.text_of bytes)
    /\ File.text_of (Utf8.encode (File.text_of bytes)) = File.text_of bytes.
Proof.
  intros bytes.
  assert (Forall (fun c => Utf8.scalar_value c = true) (File.text_of bytes))
    as Hs.
  { unfold File.text_of.
    eapply universal_newlines_scalar_fuel; [reflexivity|].
    eapply decode_ignore_scalar_fuel. reflexivity. }
  assert (~ In 0x0D%N (File.text_of bytes)) as Hcr.
  { unfold File.text_of. eapply universal_newlines_no_cr_fuel. reflexivity. }
  split; [exact Hs|]. split; [exact Hcr|].
  rewrite text_of_encode by exact Hs.
  apply universal_newlines_id. exact Hcr.
Qed.


(** X11: with a negative budget down to [-2^63] the preview is the
    whole text of the file; a budget below that is refused by [read],
    and the result is the one of a failed read. *)
Theorem negative_budget_reads_all :
  forall (file_path : pystr) (max_bytes : Z) (w : World) (bytes : list byte),
    files w file_path = inr bytes ->
    quiet 4 (faults w) ->
    (max_bytes < 0)%Z ->
    ((- 2 ^ 63 <= max_bytes)%Z ->
     exists r w',
       preview_large_json file_path max_bytes w = (inr r, w')
       /\ preview r = File.text_of bytes)
    /\ ((max_bytes < - 2 ^ 63)%Z ->
        preview_large_json file_path max_bytes w
        = (inr {| preview := lit "Error reading file: "
                             ++ File.not_index_sized;
                  structure := lit "Error";
                  file_size := 0 |},
           record [Stat file_path; Open file_path false; Close] w)).
Proof.
  intros file_path max_bytes w bytes Hf Hq Hn. split.
  - intros Hmin.
    assert (Hfit : File.fits_ssize_t max_bytes = true).
    { apply fits_ssize_t_iff. split; [exact Hmin|].
      apply Z.lt_trans with (m := 0%Z); [exact Hn | reflexivity]. }
    pose proof (read_preview_quiet file_path max_bytes _ w Hf Hq Hfit) as Hr.
    destruct (preview_large_json_read_returns _ _ _ _ _ _ Hr)
      as (d & w2 & _ & Hp).
    eexists. exists w2. split; [exact Hp|]. simpl.
    unfold File.upto. destruct (Z.ltb_spec max_bytes 0); [reflexivity | lia].
  - intros Hmin.
    assert (Hfit : File.fits_ssize_t max_bytes = false).
    { unfold File.fits_ssize_t. apply andb_false_iff. left.
      apply Z.leb_gt. exact Hmin. }
    apply (preview_large_json_read_raises file_path max_bytes w
             (Exn OverflowError File.not_index_sized)).
    apply (read_preview_refused file_path max_bytes bytes w Hf);
      [|exact Hfit].
    apply (quiet_le 4 3); [exact Hq | lia].
Qed.

End TextFacts.

Lemma tier1_classifies_witness :
  tier1_describe (lit "  [1, 2]") 5 = lit "JSON array (list)".
Proof.
  exact (proj1 (tier1_classifies (lit "  [1, 2]") 5) (lit "1, 2]") eq_refl).
Defined.


Lemma negative_budget_reads_all_witness :
  exists r w',
    preview_large_json (lit "x.json") (-1)
      (one_file (lit "x.json") nan_file []) = (inr r, w')
    /\ preview r = File.text_of nan_file.
Proof.
  apply (proj1 (negative_budget_reads_all (lit "x.json") (-1)
                  (one_file (lit "x.json") nan_file []) nan_file
                  eq_refl (quiet_nil 4) ltac:(lia))).
  discriminate.
Defined.

(** ** The bracket scan *)

Section BraceScan.
Local Open Scope Z_scope.

Lemma brace_depth_app a b :
  brace_depth (a ++ b) = brace_depth a + brace_depth b.
Proof. induction a as [|c a IH]; simpl; [reflexivity | rewrite IH; lia]. Qed.

Lemma brace_depth_closed pre :
  brace_depth (pre ++ [rbrace]) = brace_depth pre - 1.
Proof. rewrite brace_depth_app. change (brace_depth [rbrace]) with (-1). lia. Qed.

Lemma find_end_pos_spec_from s : forall i count,
  (find_end_pos s i count = 0
   /\ forall pre post,
        s = pre ++ rbrace :: post -> count + brace_depth (pre ++ [rbrace]) <> 0)
  \/ (exists pre post,
        s = pre ++ rbrace :: post
        /\ find_end_pos s i count = i + len pre + 1
        /\ count + brace_depth (pre ++ [rbrace]) = 0
        /\ forall pre' post',
             s = pre' ++ rbrace :: post' ->
             (length pre' < length pre)%nat ->
             count + brace_depth (pre' ++ [rbrace]) <> 0).
Proof.
  induction s as [|c s IH]; intros i count.
  - left. split; [reflexivity|]. intros [|x pre] post H; discriminate.
  - cbn [find_end_pos].
    change 0x7B%N with lbrace. change 0x7D%N with rbrace.
    set (delta := if char_eqb c lbrace then 1
                  else if char_eqb c rbrace then -1 else 0).
    assert (Hcons : forall pre, brace_depth (c :: pre) = delta + brace_depth pre)
      by reflexivity.
    assert (Hstep : char_eqb c rbrace = false \/ (c = rbrace /\ delta = -1)).
    { destruct (char_eqb c rbrace) eqn:Er; [|left; reflexivity].
      right. apply N.eqb_eq in Er. subst c. split; reflexivity. }
    assert (Hgo :
      (count + delta = 0 -> c <> rbrace) ->
      (find_end_pos s (i + 1) (count + delta) = 0
       /\ forall pre post,
            c :: s = pre ++ rbrace :: post ->
            count + brace_depth (pre ++ [rbrace]) <> 0)
      \/ (exists pre post,
            c :: s = pre ++ rbrace :: post
            /\ find_end_pos s (i + 1) (count + delta) = i + len pre + 1
            /\ count + brace_depth (pre ++ [rbrace]) = 0
            /\ forall pre' post',
                 c :: s = pre' ++ rbrace :: post' ->
                 (length pre' < length pre)%nat ->
                 count + brace_depth (pre' ++ [rbrace]) <> 0)).
    { intros Hhead.
      destruct (IH (i + 1) (count + delta))
        as [[Hr Hall] | (pre & post & -> & Hr & Hd & Hfirst)].
      - left. split; [exact Hr|]. intros [|x pre] post H.
        + injection H as -> _. rewrite brace_depth_closed. simpl.
          intros E. apply Hhead; [|reflexivity].
          destruct Hstep as [Hs | [_ ->]]; [discriminate | lia].
        + injection H as <- ->. specialize (Hall pre post eq_refl).
          rewrite brace_depth_closed in *. rewrite Hcons. lia.
      - right. exists (c :: pre), post. split; [reflexivity|].
        split; [rewrite Hr; unfold len; cbn [length]; lia|].
        split; [rewrite brace_depth_closed in *; rewrite Hcons; lia|].
        intros [|x pre'] post' H Hlt.
        + injection H as -> _. rewrite brace_depth_closed. simpl.
          intros E. apply Hhead; [|reflexivity].
          destruct Hstep as [Hs | [_ ->]]; [discriminate | lia].
        + injection H as <- H. specialize (Hfirst pre' post' H).
          cbn [length] in Hlt. specialize (Hfirst ltac:(lia)).
          rewrite brace_depth_closed in *. rewrite Hcons. lia. }
    destruct (char_eqb c lbrace) eqn:El.
    + apply Hgo. intros _ ->. discriminate.
    + destruct (char_eqb c rbrace) eqn:Er.
      * apply N.eqb_eq in Er. subst c.
        destruct (Z.eqb_spec (count - 1) 0) as [Hz | Hnz].
        -- right. exists [], s. split; [reflexivity|].
           split; [unfold len; simpl; lia|].
           split; [rewrite brace_depth_closed; simpl; lia|].
           intros pre' post' _ Hlt. simpl in Hlt. lia.
        -- apply Hgo. unfold delta. lia.
      * assert (count + delta = count) as E by (unfold delta; lia).
        rewrite E in Hgo. apply Hgo. intros _ ->. discriminate.
Qed.

(** X12: the bracket scan of the second attempt.  The position it
    finds is the length of the shortest prefix of the text that ends
    with a closing brace and has as many closing braces as opening
    ones, all braces being counted, those inside strings too; it is 0
    when the text has no such prefix. *)
Theorem find_end_pos_spec :
  forall s : pystr,
    (find_end_pos s 0 0 = 0
     /\ forall pre post,
          s = pre ++ rbrace :: post -> brace_depth (pre ++ [rbrace]) <> 0)
    \/ (exists pre post,
          s = pre ++ rbrace :: post
          /\ find_end_pos s 0 0 = len pre + 1
          /\ slice_to (find_end_pos s 0 0) s = pre ++ [rbrace]
          /\ brace_depth (pre ++ [rbrace]) = 0
          /\ forall pre' post',
               s = pre' ++ rbrace :: post' ->
               (length pre' < length pre)%nat ->
               brace_depth (pre' ++ [rbrace]) <> 0).
Proof.
  intros s.
  destruct (find_end_pos_spec_from s 0 0)
    as [[Hr Hall] | (pre & post & Hs & Hr & Hd & Hfirst)].
  - left. split; [exact Hr|]. intros pre post H.
    specialize (Hall pre post H). lia.
  - right. exists pre, post. split; [exact Hs|].
    split; [rewrite Hr; lia|]. split.
    + rewrite Hr. unfold slice_to, len.
      destruct (Z.ltb_spec (0 + Z.of_nat (length pre) + 1) 0); [lia|].
      replace (Z.to_nat (0 + Z.of_nat (length pre) + 1))
        with (length (pre ++ [rbrace]))
        by (rewrite length_app; simpl; lia).
      rewrite Hs.
      change (pre ++ rbrace :: post) with (pre ++ [rbrace] ++ post).
      rewrite app_assoc. rewrite firstn_app, firstn_all, Nat.sub_diag.
      simpl. rewrite app_nil_r. reflexivity.
    + split; [lia|]. intros pre' post' H Hlt.
      specialize (Hfirst pre' post' H Hlt). lia.
Qed.

End BraceScan.

(** ** The search for files *)

Section WalkFacts.

Import Os.


Definition subdirs (top : pystr) (l : list (pystr * entry))
  : list (pystr * list pystr * list pystr) :=
  flat_map (fun ne => if is_dir (snd ne) && negb (islink (snd ne))
                      then walk (path_join top (fst ne)) (snd ne)
                      else []) l.


Lemma startswith_app p x y :
  startswith p x = true -> startswith p (x ++ y) = true.
Proof.
  revert x. induction p as [|c p IH]; intros x H; [reflexivity|].
  destruct x as [|d x]; [discriminate|].
  cbn [startswith app] in *.
  apply andb_true_iff in H. destruct H as [H1 H2].
  rewrite H1, (IH _ H2). reflexivity.
Qed.

Lemma endswith_app suffix a b :
  endswith suffix b = true -> endswith suffix (a ++ b) = true.
Proof.
  unfold endswith. rewrite rev_app_distr. apply startswith_app.
Qed.

Lemma endswith_join suffix a b :
  endswith suffix b = true -> endswith suffix (path_join a b) = true.
Proof.
  intros H. unfold path_join.
  destruct (startswith (lit "/") b); [exact H|].
  destruct (match a with [] => true | _ :: _ => endswith (lit "/") a end).
  - apply endswith_app, H.
  - apply endswith_app, endswith_app, H.
Qed.

Definition json_in (t : pystr * list pystr * list pystr) : list pystr :=
  map (path_join (fst (fst t))) (filter (endswith (lit ".json")) (snd t)).

Lemma inner_loop root files acc :
  fold_left
    (fun json_files file =>
       if endswith (lit ".json") file
       then json_files ++ [path_join root file]
       else json_files)
    files acc
  = acc ++ map (path_join root) (filter (endswith (lit ".json")) files).
Proof.
  revert acc. induction files as [|f files IH]; intros acc; cbn [fold_left filter].
  - cbn. now rewrite app_nil_r.
  - rewrite IH. destruct (endswith (lit ".json") f); [|reflexivity].
    cbn [map]. now rewrite <- app_assoc.
Qed.

Lemma outer_loop triples acc :
  fold_left
    (fun json_files '(root, dirs, files) =>
       fold_left
         (fun json_files file =>
            if endswith (lit ".json") file
            then json_files ++ [path_join root file]
            else json_files)
         files json_files)
    triples acc
  = acc ++ flat_map json_in triples.
Proof.
  revert acc. induction triples as [|[[root dirs] files] l IH]; intros acc;
    cbn [fold_left flat_map].
  - now rewrite app_nil_r.
  - rewrite IH, inner_loop. unfold json_in at 2. cbn [fst snd].
    now rewrite <- app_assoc.
Qed.

Lemma find_json_files_walk base tree :
  find_json_files base tree = flat_map json_in (walk base tree).
Proof. unfold find_json_files. now rewrite outer_loop. Qed.



End WalkFacts.


(** X14: every path that [find_json_files] returns ends with [.json]
    itself, in lower case, whatever the base directory is: the join
    keeps the suffix of the name. *)
Theorem find_json_files_suffix base tree p :
  In p (find_json_files base tree) ->
  endswith (lit ".json") p = true.
Proof.
  rewrite find_json_files_walk. intros H. apply in_flat_map in H.
  destruct H as ([[root dirs] files] & _ & Hp).
  unfold json_in in Hp. cbn [fst snd] in Hp.
  apply in_map_iff in Hp. destruct Hp as (name & <- & Hf).
  apply filter_In in Hf. apply endswith_join, Hf.
Qed.

Lemma find_json_files_suffix_witness :
  endswith (lit ".json") (lit "data/b.json/c.json") = true.
Proof.
  apply (find_json_files_suffix (lit "data") sample_tree).
  vm_compute. right. left. reflexivity.
Defined.


Example find_json_files_sample :
  find_json_files (lit "data") sample_tree
  = [lit "data/a.json"; lit "data/b.json/c.json"]
  /\ find_json_files (lit "data/link")
       (Os.Dir true (Some [(lit "f.json", Os.NonDir)]))
     = [lit "data/link/f.json"].
Proof. split; reflexivity. Qed.

(** ** The analyzer when opens fail *)

Lemma open_missing path binary msg w :
  files w path = inl msg ->
  File.open path binary w
  = (inl (Exn OSError match faults w with Some m :: _ => m | _ => msg end),
     record [Open path binary] w).
Proof.
  intros H. unfold File.open, bind, sys, ask, raise.
  destruct (faults w) as [|[m|] l]; cbn; try rewrite H; reflexivity.
Qed.

Lemma with_open_missing {A} path binary (body : File.file -> IO A) msg w :
  files w path = inl msg ->
  File.with_open path binary body w
  = (inl (Exn OSError match faults w with Some m :: _ => m | _ => msg end),
     record [Open path binary] w).
Proof.
  intros H. unfold File.with_open, bind. rewrite (open_missing _ _ _ _ H).
  reflexivity.
Qed.

(** X16: called on a path where there is nothing, the analyzer tries
    to open it three times, twice as text and once as bytes, makes no
    other call, and returns [Could not analyze structure: ] followed
    by the message of the first failure, not of the later ones. *)
Theorem analyze_missing_file :
  forall (file_path : pystr) (max_items : Z) (msg : pystr) (w : World),
    files w file_path = inl msg ->
    analyze_json_structure file_path max_items w
    = (inr (lit "Could not analyze structure: "
            ++ match faults w with Some m :: _ => m | _ => msg end),
       record [Open file_path false; Open file_path false; Open file_path true]
              w).
Proof.
  intros path max_items msg w H.
  unfold analyze_json_structure, try_except, tier1, tier2, tier3.
  rewrite (with_open_missing _ _ _ _ _ H).
  rewrite (with_open_missing path false _ msg (record _ w) H).
  rewrite (with_open_missing path true _ msg (record _ (record _ w)) H).
  unfold ret. rewrite !record_record. reflexivity.
Qed.

Lemma analyze_missing_file_witness :
  analyze_json_structure (lit "missing.json") 5
    (one_file (lit "routes.json") [] [])
  = (inr (lit "Could not analyze structure: [Errno 2] No such file or directory"),
     record [Open (lit "missing.json") false; Open (lit "missing.json") false;
             Open (lit "missing.json") true]
            (one_file (lit "routes.json") [] [])).
Proof.
  apply (analyze_missing_file (lit "missing.json") 5
           (lit "[Errno 2] No such file or directory")).
  reflexivity.
Defined.

Lemma tier3_describe_first_byte bytes :
  tier3_describe (File.upto 1 bytes) = first_byte_class bytes.
Proof.
  destruct bytes as [|b bytes]; [reflexivity|].
  change (File.upto 1 (b :: bytes)) with [b].
  destruct b; vm_compute; reflexivity.
Qed.

Lemma with_open_fault {A} path binary (body : File.file -> IO A) m l w :
  faults w = Some m :: l ->
  File.with_open path binary body w
  = (inl (Exn OSError m), record [Open path binary] w).
Proof.
  intros H. unfold File.with_open, File.open, bind, sys. rewrite H. reflexivity.
Qed.

(** X17: when the opens of the first two attempts fail and the calls
    of the third succeed, the description is decided by the first byte
    of the file alone: an opening brace or bracket there gives the
    object or array text, and anything else, white space before a
    brace included, or an empty file, gives the unknown text. *)
Theorem last_attempt_first_byte :
  forall (file_path : pystr) (max_items : Z) (bytes : list byte)
         (m1 m2 : pystr) (l : list (option pystr)) (w : World),
    files w file_path = inr bytes ->
    faults w = Some m1 :: Some m2 :: l ->
    quiet 3 l ->
    analyze_json_structure file_path max_items w
    = (inr (first_byte_class bytes),
       record [Open file_path false; Open file_path false;
               Open file_path true; Read 1%Z; Close] w).
Proof.
  intros path max_items bytes m1 m2 l w Hf Hw Hq.
  unfold analyze_json_structure, try_except, tier1, tier2.
  rewrite (with_open_fault _ _ _ m1 (Some m2 :: l) w Hw).
  assert (H1 : faults (record [Open path false] w) = Some m2 :: l).
  { cbn. rewrite Hw. reflexivity. }
  rewrite (with_open_fault _ _ _ m2 l _ H1).
  assert (H2 : faults (record [Open path false] (record [Open path false] w)) = l).
  { cbn. rewrite Hw. reflexivity. }
  rewrite (tier3_quiet path bytes).
  - rewrite !record_record, tier3_describe_first_byte. reflexivity.
  - exact Hf.
  - rewrite H2. exact Hq.
Qed.

Lemma last_attempt_first_byte_witness :
  analyze_json_structure (lit "a.json") 5
    (one_file (lit "a.json") (Utf8.encode (lit " {}"))
       [Some (lit "[Errno 5] Input/output error");
        Some (lit "[Errno 5] Input/output error")])
  = (inr (lit "Unknown JSON structure with possible NaN values"),
     record [Open (lit "a.json") false; Open (lit "a.json") false;
             Open (lit "a.json") true; Read 1%Z; Close]
       (one_file (lit "a.json") (Utf8.encode (lit " {}"))
          [Some (lit "[Errno 5] Input/output error");
           Some (lit "[Errno 5] Input/output error")])).
Proof.
  apply (last_attempt_first_byte (lit "a.json") 5 (Utf8.encode (lit " {}"))
           (lit "[Errno 5] Input/output error")
           (lit "[Errno 5] Input/output error") []).
  - reflexivity.
  - reflexivity.
  - apply quiet_nil.
Defined.

(** ** A parse failure in the second attempt: what the analyzer answers *)

Lemma find_end_pos_nonneg s : forall i count,
  (0 <= i)%Z -> (0 <= find_end_pos s i count)%Z.
Proof.
  induction s as [|c s IH]; intros i count Hi; cbn [find_end_pos]; [lia|].
  destruct (char_eqb c 123%N); [apply IH; lia|].
  destruct (char_eqb c 125%N); [|apply IH; lia].
  destruct (count - 1 =? 0)%Z; [lia | apply IH; lia].
Qed.

Lemma keys_description_not_not_parsed keys : keys_description keys <> not_parsed.
Proof. unfold keys_description. discriminate. Qed.

(** The second attempt answers [not_parsed] exactly when it does not
    come to parse. *)
Lemma tier2_describe_not_parsed max_digits depth content max_items :
  tier2_describe max_digits depth content max_items = inr not_parsed
  <-> (startswith (lit "{") (strip (clean content)) = false
       \/ find_end_pos (clean content) 0 0 = 0%Z).
Proof.
  unfold tier2_describe.
  pose proof (find_end_pos_nonneg (clean content) 0 0 ltac:(lia)) as Hpos.
  destruct (startswith (lit "{") (strip (clean content))).
  - destruct (Z.ltb_spec 0 (find_end_pos (clean content) 0 0)) as [Hlt | Hge].
    + split.
      * intros H.
        destruct (Json.loads _ _ _) as [e | v]; [discriminate|].
        destruct (keys_of v) as [e | ks]; [discriminate|].
        exfalso.
        apply (keys_description_not_not_parsed (slice_to max_items ks)).
        congruence.
      * intros [H | H]; [discriminate | lia].
    + split; [intros _; right; lia | reflexivity].
  - split; [intros _; left; reflexivity | reflexivity].
Qed.

Lemma tier1_describe_not_not_parsed text max_items :
  tier1_describe text max_items <> not_parsed.
Proof.
  unfold tier1_describe, keys_description.
  destruct (startswith (lit "{") _);
    [destruct (Re.findall_keys _)|destruct (startswith (lit "[") _)];
    discriminate.
Qed.

Lemma tier1_same_files path max_items w :
  same_files w (snd (tier1 path max_items w)).
Proof.
  unfold tier1, File.with_open, File.open, File.read, File.close, bind, ask,
    sys, ret, raise, record, same_files.
  destruct w as [fs fl tr rl md]. simpl.
  destruct (fs path) as [msg | bytes] eqn:Hf.
  - destruct fl as [|[m1|] fl]; simpl; rewrite ?Hf; simpl; auto.
  - destruct fl as [|[m1|] [|[m2|] [|[m3|] fl]]]; simpl; rewrite ?Hf; simpl;
      auto.
Qed.

Lemma tier2_returns path max_items w d w' :
  tier2 path max_items w = (inr d, w') ->
  exists bytes,
    files w path = inr bytes
    /\ tier2_describe (int_max_str_digits w) (recursion_limit w)
         (File.upto 10240 (File.text_of bytes)) max_items = inr d.
Proof.
  unfold tier2, File.with_open, File.open, File.read, File.close, bind, ask,
    sys, ret, raise, lift, record.
  destruct w as [fs fl tr rl md]. simpl.
  destruct (fs path) as [msg | bytes] eqn:Hf.
  - destruct fl as [|[m1|] fl]; simpl; rewrite ?Hf; simpl; discriminate.
  - destruct fl as [|[m1|] [|[m2|] [|[m3|] fl]]]; simpl; rewrite ?Hf; simpl;
      try discriminate;
      destruct (tier2_describe _ _ _ _) as [e2 | d2] eqn:E; try discriminate;
      intros H; injection H as <- _; eauto.
Qed.

(** C2, as the code has it: when the first attempt has raised, in
    whichever of its calls, and the text that the second attempt reads
    starts with an opening brace, its braces match, and [json.loads]
    raises on the text up to the matching brace, the second attempt
    raises that exception: the analyzer goes on to the third attempt,
    and what it returns is not the description [JSON structure
    detected, but details could not be parsed].  That description is
    the answer of the second attempt exactly when the cleaned text
    does not start with an opening brace or the depth of its braces
    never comes back to zero, and the analyzer returns it for such a
    file only. *)
Theorem parse_failure_falls_through :
  forall (file_path : pystr) (max_items : Z) (w : World),
    (forall (e1 : exn) (w1 : World) (bytes : list byte) (e : exn),
        tier1 file_path max_items w = (inl e1, w1) ->
        quiet 3 (faults w1) ->
        files w file_path = inr bytes ->
        startswith (lit "{")
          (strip (clean (File.upto 10240 (File.text_of bytes)))) = true ->
        (0 < find_end_pos (clean (File.upto 10240 (File.text_of bytes))) 0 0)%Z ->
        Json.loads (int_max_str_digits w) (recursion_limit w)
          (slice_to
             (find_end_pos (clean (File.upto 10240 (File.text_of bytes))) 0 0)
             (clean (File.upto 10240 (File.text_of bytes)))) = inl e ->
        tier2 file_path max_items w1
        = (inl e, record [Open file_path false; Read 10240%Z; Close] w1)
        /\ analyze_json_structure file_path max_items w
           = try_except (tier3 file_path)
               (fun _ => ret (lit "Could not analyze structure: " ++ str_exn e1))
               (record [Open file_path false; Read 10240%Z; Close] w1)
        /\ forall d w',
             analyze_json_structure file_path max_items w = (inr d, w') ->
             d <> not_parsed)
    /\ (forall w',
           analyze_json_structure file_path max_items w = (inr not_parsed, w') ->
           exists bytes,
             files w file_path = inr bytes
             /\ (startswith (lit "{")
                   (strip (clean (File.upto 10240 (File.text_of bytes))))
                 = false
                 \/ find_end_pos
                      (clean (File.upto 10240 (File.text_of bytes))) 0 0
                    = 0%Z))
    /\ (forall (max_digits depth : nat) (content : pystr),
           tier2_describe max_digits depth content max_items = inr not_parsed
           <-> (startswith (lit "{") (strip (clean content)) = false
                \/ find_end_pos (clean content) 0 0 = 0%Z)).
Proof.
  intros file_path max_items w. split; [|split].
  - intros e1 w1 bytes e H1 Hq Hf Hs He Hl.
    pose proof (tier1_same_files file_path max_items w) as (Hfs & Hrl & Hmd).
    rewrite H1 in Hfs, Hrl, Hmd. cbn [snd] in Hfs, Hrl, Hmd.
    assert (tier2 file_path max_items w1
            = (inl e, record [Open file_path false; Read 10240%Z; Close] w1))
      as H2.
    { rewrite (tier2_quiet file_path max_items bytes).
      - f_equal. unfold tier2_describe. rewrite Hs.
        apply Z.ltb_lt in He. rewrite He. rewrite Hmd, Hrl, Hl. reflexivity.
      - rewrite Hfs. exact Hf.
      - exact Hq. }
    assert (analyze_json_structure file_path max_items w
            = try_except (tier3 file_path)
                (fun _ => ret (lit "Could not analyze structure: "
                               ++ str_exn e1))
                (record [Open file_path false; Read 10240%Z; Close] w1)) as Ha.
    { unfold analyze_json_structure at 1. unfold try_except at 1.
      rewrite H1. unfold try_except at 1. rewrite H2. reflexivity. }
    split; [exact H2|]. split; [exact Ha|].
    intros d w'. rewrite Ha. unfold try_except.
    destruct (tier3 file_path _) as [[e3 | d3] w3] eqn:H3.
    + unfold ret. intros H. injection H as <- _. discriminate.
    + intros H. injection H as <- _.
      destruct (tier3_result _ _ _ _ H3) as [b ->].
      apply tier3_describe_not_not_parsed.
  - intros w'. unfold analyze_json_structure, try_except.
    destruct (tier1 file_path max_items w) as [[e1 | d1] w1] eqn:H1.
    + pose proof (tier1_same_files file_path max_items w) as (Hfs & Hrl & Hmd).
      rewrite H1 in Hfs, Hrl, Hmd. cbn [snd] in Hfs, Hrl, Hmd.
      destruct (tier2 file_path max_items w1) as [[e2 | d2] w2] eqn:H2.
      * destruct (tier3 file_path w2) as [[e3 | d3] w3] eqn:H3.
        -- unfold ret. intros H. exfalso.
           assert (lit "Could not analyze structure: " ++ str_exn e1
                   = not_parsed) as Hd by congruence.
           discriminate Hd.
        -- intros H. assert (d3 = not_parsed) as -> by congruence.
           destruct (tier3_result _ _ _ _ H3) as [b Hb].
           exfalso. exact (tier3_describe_not_not_parsed b (eq_sym Hb)).
      * intros H. assert (d2 = not_parsed) as -> by congruence.
        destruct (tier2_returns _ _ _ _ _ H2) as (bytes & Hf & Hd).
        exists bytes. split; [rewrite <- Hfs; exact Hf|].
        exact (proj1 (tier2_describe_not_parsed _ _ _ _) Hd).
    + intros H. assert (d1 = not_parsed) as -> by congruence.
      destruct (tier1_result _ _ _ _ _ H1) as [text Ht].
      exfalso. exact (tier1_describe_not_not_parsed text max_items (eq_sym Ht)).
  - intros max_digits depth content. apply tier2_describe_not_parsed.
Qed.

Lemma parse_failure_falls_through_witness :
  exists e,
    tier2 (lit "a.json") 5
      (record [Open (lit "a.json") false; Read 1024%Z; Close]
              broken_read_world)
    = (inl e,
       record [Open (lit "a.json") false; Read 10240%Z; Close]
         (record [Open (lit "a.json") false; Read 1024%Z; Close]
                 broken_read_world)).
Proof.
  eexists.
  refine (proj1 (proj1 (parse_failure_falls_through (lit "a.json") 5
                          broken_read_world)
                   (Exn OSError (lit "[Errno 5] Input/output error"))
                   _ broken_file _ eq_refl (quiet_nil 3) eq_refl eq_refl
                   eq_refl _)).
  vm_compute. reflexivity.
Defined.

(** C2, as it is stated, fails: [broken_file] starts with an opening
    brace, its braces match at position 3, the text up to there is not
    JSON, and the analyzer answers with the description of the third
    attempt. *)
Lemma parse_failure_counterexample :
  startswith (lit "{")
    (strip (clean (File.upto 10240 (File.text_of broken_file)))) = true
  /\ find_end_pos (clean (File.upto 10240 (File.text_of broken_file))) 0 0 = 3%Z
  /\ (exists e,
        Json.loads 4300 1000
          (slice_to 3 (clean (File.upto 10240 (File.text_of broken_file))))
        = inl e)
  /\ fst (analyze_json_structure (lit "a.json") 5 broken_world)
     = inr (lit "JSON object (dictionary) with NaN values")
  /\ fst (analyze_json_structure (lit "a.json") 5 broken_world)
     <> inr not_parsed.
Proof.
  repeat split.
  - eexists. vm_compute. reflexivity.
  - vm_compute. discriminate.
Qed.

(** ** The bytes that are dropped *)

Section DroppedBytes.

Local Open Scope N_scope.















End DroppedBytes.

